(** * Paper-Verify: the claim extractor and the matching / validation engine

    A shallow embedding of [paperverify/parser.py], [paperverify/matcher.py]
    and [paperverify/validator.py], and the properties of the specification
    stated over it.

    Modelling conventions.
    - A Python [float] is a binary64 value: Rocq's primitive [float], whose
      operations are the IEEE 754 ones (round to nearest, ties to even).
    - A Python [str] is a [list ascii]; the text is taken to be 7-bit ASCII
      (a byte above 127 is a symbol that is neither letter, digit nor white
      space, and has no case).
    - A Python exception is a value of [exn]; a function that can raise
      returns in the monad [py].
    - A [dict] is an association list in insertion order; its [float] keys are
      objects, with an identity next to their value. *)

From Stdlib Require Import Floats ZArith List Ascii String Bool Arith Lia Setoid.
From Stdlib Require Import Permutation Sorted DecimalString.
Import ListNotations.

Set Warnings "-inexact-float,-register-all".

(** ** Python exceptions *)

Inductive exn : Type :=
| ZeroDivisionError
| IndexError
| KeyError
| ValueError.

Inductive py (A : Type) : Type :=
| Ok (a : A)
| Raise (e : exn).

Arguments Ok {A} a.
Arguments Raise {A} e.

Definition bind {A B : Type} (m : py A) (k : A -> py B) : py B :=
  match m with
  | Ok a => k a
  | Raise e => Raise e
  end.

Notation "x <- m ;; k" := (bind m (fun x => k))
  (at level 61, m at next level, right associativity).

(** [for x in l: body], the loop state threaded through the iterations; an
    exception leaves the loop. *)
Fixpoint for_each {A S : Type} (l : list A) (body : S -> A -> py S) (s : S)
  : py S :=
  match l with
  | [] => Ok s
  | x :: l' => s' <- body s x ;; for_each l' body s'
  end.

(** ** Python strings over ASCII *)

Module PyStr.

Definition str := list ascii.

Definition lit (s : string) : str := list_ascii_of_string s.

Definition in_range (lo hi c : ascii) : bool :=
  (nat_of_ascii lo <=? nat_of_ascii c) && (nat_of_ascii c <=? nat_of_ascii hi).

(** [\d] *)
Definition is_digit (c : ascii) : bool := in_range "0" "9" c.

Definition is_upper (c : ascii) : bool := in_range "A" "Z" c.
Definition is_lower (c : ascii) : bool := in_range "a" "z" c.
Definition is_letter (c : ascii) : bool := is_upper c || is_lower c.

(** [str.isspace] on one character, which is also [\s]: tab, line feed,
    vertical tab, form feed, carriage return, the four separators 28..31
    and the space. *)
Definition is_space (c : ascii) : bool :=
  let n := nat_of_ascii c in
  ((9 <=? n) && (n <=? 13)) || ((28 <=? n) && (n <=? 32)).

Definition lower_char (c : ascii) : ascii :=
  if is_upper c then ascii_of_nat (nat_of_ascii c + 32) else c.

(** [s.lower()] *)
Definition lower (s : str) : str := map lower_char s.

Definition eqb_char (a b : ascii) : bool := Ascii.eqb a b.

Fixpoint eqb (a b : str) : bool :=
  match a, b with
  | [], [] => true
  | x :: a', y :: b' => eqb_char x y && eqb a' b'
  | _, _ => false
  end.

(** [s.startswith(p)] *)
Fixpoint startswith (p s : str) : bool :=
  match p, s with
  | [], _ => true
  | x :: p', y :: s' => eqb_char x y && startswith p' s'
  | _ :: _, [] => false
  end.

(** [p in s] *)
Fixpoint contains (p s : str) : bool :=
  startswith p s ||
  match s with
  | [] => false
  | _ :: s' => contains p s'
  end.

(** [c in s] for one character *)
Definition has_char (c : ascii) (s : str) : bool := existsb (eqb_char c) s.

(** [s[i:j]] for [0 <= i] and [0 <= j] *)
Definition slice (s : str) (i j : nat) : str := firstn (j - i) (skipn i s).

(** [s.replace(c, '')] for one character [c] *)
Definition remove_char (c : ascii) (s : str) : str :=
  filter (fun x => negb (eqb_char c x)) s.

Fixpoint lstrip (s : str) : str :=
  match s with
  | c :: s' => if is_space c then lstrip s' else s
  | [] => []
  end.

Definition rstrip (s : str) : str := rev (lstrip (rev s)).

(** [s.strip()] *)
Definition strip (s : str) : str := rstrip (lstrip s).

(** The longest prefix of [s] whose characters satisfy [p], and the rest. *)
Fixpoint span (p : ascii -> bool) (s : str) : str * str :=
  match s with
  | c :: s' =>
      if p c then let (a, r) := span p s' in (c :: a, r) else ([], s)
  | [] => ([], [])
  end.

(** [s.split(c)]: the pieces between the occurrences of [c]; never empty. *)
Fixpoint split (c : ascii) (s : str) : list str :=
  match s with
  | [] => [[]]
  | x :: s' =>
      if eqb_char c x then [] :: split c s'
      else match split c s' with
           | l :: ls => (x :: l) :: ls
           | [] => [[x]]
           end
  end.

(** Python's truth value of a string. *)
Definition truthy (s : str) : bool :=
  match s with [] => false | _ :: _ => true end.

(** Python's truth value of an [Optional[str]]. *)
Definition truthy_opt (o : option str) : bool :=
  match o with Some s => truthy s | None => false end.

End PyStr.

(** ** Python floats *)

Module PyFloat.

Open Scope float_scope.

(** [a / b] on floats: a zero divisor raises. *)
Definition truediv (a b : float) : py float :=
  if b =? 0 then Raise ZeroDivisionError else Ok (a / b).

(** The double nearest to [p / q], ties to even, for positive [p] and [q]:
    the division of [SpecFloat] on the two integers. *)
Definition nearest_ratio (neg : bool) (p q : positive) : float :=
  let '(mz, ez, lz) := SFdiv_core_binary prec emax (Zpos p) 0 (Zpos q) 0 in
  SF2Prim (binary_round_aux prec emax neg mz ez lz).

Definition nearest_Z_ratio (neg : bool) (n : Z) (q : positive) : float :=
  match n with
  | Zpos p => nearest_ratio neg p q
  | _ => if neg then PrimFloat.neg_zero else PrimFloat.zero
  end.

(** The integer nearest to [n / d], ties to the even one ([0 <= n], [0 < d]). *)
Definition div_half_even (n d : Z) : Z :=
  let q := (n / d)%Z in
  let r := (n mod d)%Z in
  match (2 * r ?= d)%Z with
  | Lt => q
  | Gt => (q + 1)%Z
  | Eq => if Z.even q then q else (q + 1)%Z
  end.

(** [round(x, 6)]: CPython writes [x] with 6 correctly rounded decimals
    (half to even on the exact binary value) and reads the decimal string
    back; a value that is not finite is returned as it is. *)
Definition round6 (x : float) : float :=
  match Prim2SF x with
  | S754_finite s m e =>
      let n :=
        match e with
        | Zneg k => div_half_even (Zpos m * 1000000) (Z.pow 2 (Zpos k))
        | _ => (Zpos m * Z.pow 2 e * 1000000)%Z
        end in
      nearest_Z_ratio s n 1000000
  | _ => x
  end.

Definition digit_val (c : ascii) : Z := Z.of_nat (nat_of_ascii c - 48).

(** The number a string of decimal digits denotes. *)
Definition digits_val (ds : PyStr.str) : Z :=
  fold_left (fun acc c => (acc * 10 + digit_val c)%Z) ds 0%Z.

Definition pow10 (n : nat) : positive := Z.to_pos (10 ^ Z.of_nat n).

(** [float(s)] for the strings the claim extractor hands to it: decimal
    digits with at most one point, and a digit on one side of it at least.
    The value is the double nearest to the decimal.  Python's [float]
    accepts more (a sign, an exponent, underscores, inf and nan, white space
    around); no such string is built from a token of the extractor, whose
    characters are digits, commas, one point and one suffix letter (lemma
    [numeric_token_shape] below), and here they raise like the rest. *)
Definition float_of_str (s : PyStr.str) : py float :=
  let (ip, r) := PyStr.span PyStr.is_digit s in
  let frac :=
    match r with
    | [] => Some []
    | c :: r' =>
        if PyStr.eqb_char c "." then
          let (fp, r'') := PyStr.span PyStr.is_digit r' in
          match r'' with [] => Some fp | _ :: _ => None end
        else None
    end in
  match frac with
  | None => Raise ValueError
  | Some fp =>
      match ip ++ fp with
      | [] => Raise ValueError
      | ds =>
          Ok (nearest_Z_ratio false (digits_val ds) (pow10 (List.length fp)))
      end
  end.

End PyFloat.

(** ** parser.py *)

Module Parser.

Import PyStr.

Record Claim : Type := {
  value : float;
  raw_text : str;
  line_number : nat;
  context : str;
  metric_hint : option str;
  model_hint : option str
}.

(** [METRIC_KEYWORDS], in the order of the dict literal. *)
Definition METRIC_KEYWORDS : list (str * list str) :=
  [ (lit "mae", [lit "mae"; lit "mean absolute error"]);
    (lit "rmse", [lit "rmse"; lit "root mean squared error"]);
    (lit "smape", [lit "smape"; lit "symmetric mean absolute percentage"]);
    (lit "latency",
       [lit "latency"; lit "ms"; lit "millisecond"; lit "inference time"]);
    (lit "vram", [lit "vram"; lit "memory"; lit "gb"]);
    (lit "accuracy", [lit "accuracy"; lit "acc"]) ].

(** One alternative of [MODEL_PATTERNS]: a name, or a name followed by
    [[\-\s]*] and an optional variant out of an alternation. *)
Inductive model_pattern : Type :=
| Name (name : str)
| NameVariant (name : str) (variants : list str).

Definition MODEL_PATTERNS : list model_pattern :=
  [ Name (lit "xgboost");
    Name (lit "arima");
    NameVariant (lit "chronos")
      [lit "tiny"; lit "mini"; lit "small"; lit "large"];
    NameVariant (lit "moirai") [lit "small"; lit "base"; lit "large"];
    Name (lit "dlinear");
    Name (lit "patchtst");
    Name (lit "timesfm") ].

(** A lower-case literal matched at the head of [s] under [re.IGNORECASE]:
    what is left of [s] behind it. *)
Fixpoint match_literal (p s : str) : option str :=
  match p, s with
  | [], _ => Some s
  | x :: p', y :: s' =>
      if eqb_char x (lower_char y) then match_literal p' s' else None
  | _ :: _, [] => None
  end.

(** The first alternative of [vs] that matches at the head of [s]: its length. *)
Fixpoint match_first (vs : list str) (s : str) : option nat :=
  match vs with
  | [] => None
  | v :: vs' =>
      match match_literal v s with
      | Some _ => Some (List.length v)
      | None => match_first vs' s
      end
  end.

(** [[\-\s]] *)
Definition is_separator (c : ascii) : bool := eqb_char c "-" || is_space c.

(** One pattern matched at the head of [s]: the length of the match.  The
    separators are taken greedily and the variant is optional, so the first
    attempt of the matcher succeeds and nothing is tried again. *)
Definition match_pattern (p : model_pattern) (s : str) : option nat :=
  match p with
  | Name n =>
      match match_literal n s with
      | Some _ => Some (List.length n)
      | None => None
      end
  | NameVariant n vs =>
      match match_literal n s with
      | Some r =>
          let (seps, r') := span is_separator r in
          let v := match match_first vs r' with Some k => k | None => 0 end in
          Some (List.length n + List.length seps + v)
      | None => None
      end
  end.

(** The alternation of the patterns, tried in order at the head of [s]. *)
Fixpoint match_alternation (ps : list model_pattern) (s : str) : option nat :=
  match ps with
  | [] => None
  | p :: ps' =>
      match match_pattern p s with
      | Some k => Some k
      | None => match_alternation ps' s
      end
  end.

(** [self.model_pattern.search(s)]: the leftmost match, as the matched text. *)
Fixpoint model_pattern_search (s : str) : option str :=
  match match_alternation MODEL_PATTERNS s with
  | Some k => Some (firstn k s)
  | None =>
      match s with
      | [] => None
      | _ :: s' => model_pattern_search s'
      end
  end.

(** [[\d,]] *)
Definition is_number_char (c : ascii) : bool := is_digit c || eqb_char c ",".

(** [[KMB]] under [re.IGNORECASE] *)
Definition is_kmb (c : ascii) : bool :=
  let l := lower_char c in
  eqb_char l "k" || eqb_char l "m" || eqb_char l "b".

(** [(?![a-z])] under [re.IGNORECASE], at the head of [s]. *)
Definition lookahead_not_letter (s : str) : bool :=
  match s with
  | [] => true
  | c :: _ => negb (is_letter c)
  end.

(** The pattern of [_extract_claims_from_line],
    [[\d,]+\.?\d*(?:[KMB](?![a-z]))?] compiled with [re.IGNORECASE],
    matched at the head of [s]: the length of the match.  [[\d,]+] and
    [\d*] are greedy and everything behind [[\d,]+] is optional, so the
    first attempt succeeds.  The flag covers the whole pattern: [[KMB]]
    takes both cases, and so does [[a-z]] inside the lookahead. *)
Definition match_number (s : str) : option nat :=
  let (a, r1) := span is_number_char s in
  match a with
  | [] => None
  | _ :: _ =>
      let (dot, r2) :=
        match r1 with
        | c :: r => if eqb_char c "." then (1, r) else (0, r1)
        | [] => (0, r1)
        end in
      let (b, r3) := span is_digit r2 in
      let suffix :=
        match r3 with
        | c :: r4 => if is_kmb c && lookahead_not_letter r4 then 1 else 0
        | [] => 0
        end in
      Some (List.length a + dot + List.length b + suffix)
  end.

(** [re.finditer]: the matches from left to right, none overlapping, as
    pairs [(match.start(), match.end())].  [pos] is the position of the head
    of [s] in the line, [skip] the number of characters still inside the
    last match.  A match is never empty. *)
Fixpoint finditer_from (s : str) (pos skip : nat) : list (nat * nat) :=
  match s with
  | [] => []
  | _ :: s' =>
      match skip with
      | S k => finditer_from s' (S pos) k
      | O =>
          match match_number s with
          | Some n => (pos, pos + n) :: finditer_from s' (S pos) (n - 1)
          | None => finditer_from s' (S pos) 0
          end
      end
  end.

Definition finditer (line : str) : list (nat * nat) := finditer_from line 0 0.

(** [multipliers], with the [int] values as the floats they multiply as. *)
Definition multipliers (suffix : str) : option float :=
  if eqb suffix (lit "k") then Some 1000%float
  else if eqb suffix (lit "m") then Some 1000000%float
  else if eqb suffix (lit "b") then Some 1000000000%float
  else None.

Definition _parse_number (raw_text : str) : py float :=
  let cleaned := strip (remove_char "," raw_text) in
  let suffix :=
    match cleaned with
    | [] => []
    | _ :: _ => [lower_char (List.last cleaned " "%char)]
    end in
  match multipliers suffix with
  | Some mult =>
      let numeric_part := removelast cleaned in
      x <- PyFloat.float_of_str numeric_part ;;
      Ok (x * mult)%float
  | None => PyFloat.float_of_str cleaned
  end.

Definition _identify_metric (context : str) : option str :=
  let context_lower := lower context in
  match
    find (fun e => existsb (fun kw => contains kw context_lower) (snd e))
      METRIC_KEYWORDS
  with
  | Some (metric, _) => Some metric
  | None => None
  end.

Definition _identify_model (context : str) : option str :=
  match model_pattern_search context with
  | Some group => Some (lower group)
  | None => None
  end.

(** The body of the loop of [_extract_claims_from_line] for one match:
    [claims] as the iteration leaves it. *)
Definition extract_step (line : str) (line_num : nat) (claims : list Claim)
  (m : nat * nat) : py (list Claim) :=
  let (m_start, m_end) := m in
  let raw_text := slice line m_start m_end in
  if (List.length raw_text <? 2)%nat && negb (has_char "." raw_text) then
    Ok claims
  else
    match _parse_number raw_text with
    | Raise ValueError => Ok claims
    | Raise e => Raise e
    | Ok value =>
        if (value =? 0)%float || (1000000000 <? value)%float then Ok claims
        else
          let start := Nat.max 0 (m_start - 50) in
          let end_ := Nat.min (List.length line) (m_end + 50) in
          let context := slice line start end_ in
          let metric_hint := _identify_metric context in
          let model_hint := _identify_model context in
          Ok (claims ++
                [ {| value := value;
                     raw_text := raw_text;
                     line_number := line_num;
                     context := context;
                     metric_hint := metric_hint;
                     model_hint := model_hint |} ])
    end.

Definition _extract_claims_from_line (line : str) (line_num : nat)
  : py (list Claim) :=
  for_each (finditer line) (extract_step line line_num) [].

Definition skip_patterns : list str :=
  [ lit "\usepackage"; lit "\documentclass"; lit "\bibliography";
    lit "\label{"; lit "\ref{"; lit "\cite" ].

Definition _is_non_claim_line (line : str) : bool :=
  existsb (fun p => contains p line) skip_patterns.

(** [enumerate(lines, start=1)] *)
Fixpoint enumerate {A : Type} (start : nat) (l : list A) : list (nat * A) :=
  match l with
  | [] => []
  | x :: l' => (start, x) :: enumerate (S start) l'
  end.

Definition parse_step (claims : list Claim) (e : nat * str)
  : py (list Claim) :=
  let (line_num, line) := e in
  if startswith (lit "%") (strip line) then Ok claims
  else if _is_non_claim_line line then Ok claims
  else
    line_claims <- _extract_claims_from_line line line_num ;;
    Ok (claims ++ line_claims).

Definition parse_content (content : str) : py (list Claim) :=
  let lines := split "010" content in
  for_each (enumerate 1 lines) parse_step [].

End Parser.

(** ** matcher.py *)

Module Matcher.

Import PyStr.

Record ResultValue : Type := {
  value : float;
  source_file : str;
  path : str;
  model : option str;
  dataset : option str;
  metric : option str
}.

(** A float object used as a dict key: its identity and its value. *)
Record float_obj : Type := { oid : nat; fval : float }.

(** Two keys are the same key of a dict when they are the same object or
    compare equal ([==]); equal floats hash alike.  A nan is equal to
    nothing, so it is found again only through its own object. *)
Definition key_match (k k' : float_obj) : bool :=
  (oid k =? oid k')%nat || (fval k =? fval k')%float.

(** [Dict[float, List[ResultValue]]], in insertion order. *)
Definition dict : Type := list (float_obj * list ResultValue).

(** [key in d] *)
Definition dict_contains (d : dict) (key : float_obj) : bool :=
  existsb (fun e => key_match (fst e) key) d.

(** [d.get(key)] *)
Fixpoint dict_get (d : dict) (key : float_obj) : option (list ResultValue) :=
  match d with
  | [] => None
  | (k, v) :: d' => if key_match k key then Some v else dict_get d' key
  end.

(** [d[key]] *)
Definition dict_getitem (d : dict) (key : float_obj)
  : py (list ResultValue) :=
  match dict_get d key with
  | Some v => Ok v
  | None => Raise KeyError
  end.

(** [d[key] = v]: the entry of the key is updated in place (the key object
    first stored stays), a new key goes to the end. *)
Fixpoint dict_set (d : dict) (key : float_obj) (v : list ResultValue) : dict :=
  match d with
  | [] => [(key, v)]
  | (k, w) :: d' =>
      if key_match k key then (k, v) :: d' else (k, w) :: dict_set d' key v
  end.

(** An object identity that no key of [d] has. *)
Definition fresh_oid (d : dict) : nat :=
  S (fold_right (fun e n => Nat.max (oid (fst e)) n) 0 d).

(** [round(x, 6)] builds a new float object each time it is called. *)
Definition round_obj (d : dict) (x : float) : float_obj :=
  {| oid := fresh_oid d; fval := PyFloat.round6 x |}.

Record ResultMatcher : Type := {
  values : list ResultValue;
  index : dict
}.

(** The body of the loop of [_build_index]; [self.index[key].append(rv)]
    looks the bucket up and extends it in place. *)
Definition index_step (index : dict) (rv : ResultValue) : py dict :=
  let key := round_obj index (value rv) in
  let index1 :=
    if negb (dict_contains index key) then dict_set index key [] else index in
  bucket <- dict_getitem index1 key ;;
  Ok (dict_set index1 key (bucket ++ [rv])).

Definition _build_index (self : ResultMatcher) : py ResultMatcher :=
  index' <- for_each (values self) index_step [] ;;
  Ok {| values := values self; index := index' |}.

(** The body of the loop of [find_matches]. *)
Definition matches_step (target tolerance_pct : float)
  (matches : list ResultValue) (rv : ResultValue) : py (list ResultValue) :=
  if (value rv =? 0)%float then Ok matches
  else
    q <- PyFloat.truediv (abs (value rv - target)) (abs (value rv)) ;;
    let diff_pct := (q * 100)%float in
    if (diff_pct <=? tolerance_pct)%float then Ok (matches ++ [rv])
    else Ok matches.

Definition find_matches (self : ResultMatcher) (target tolerance_pct : float)
  : py (list ResultValue) :=
  for_each (values self) (matches_step target tolerance_pct) [].

Definition find_exact (self : ResultMatcher) (target : float)
  : list ResultValue :=
  let key := round_obj (index self) target in
  match dict_get (index self) key with
  | Some bucket => bucket
  | None => []
  end.

End Matcher.

(** ** validator.py *)

Module Validator.

Import PyStr.
Import Parser.
Import Matcher.

Inductive MatchStatus : Type :=
| EXACT_MATCH
| CLOSE_MATCH
| MISMATCH
| UNVERIFIED.

(** The [message] of a result: the text template used and the values
    formatted into it. *)
Inductive Message : Type :=
| ExactMatchIn (source_file : str)
| CloseMatchIn (diff_pct : float) (source_file : str)
| MismatchActual (actual diff_pct : float)
| NoMatchingValue.

Record VerificationResult : Type := {
  claim : Claim;
  status : MatchStatus;
  matched_value : option ResultValue;
  difference_pct : option float;
  message : Message
}.

Record Validator : Type := {
  matcher : ResultMatcher;
  tolerance_pct : float
}.

(** The score [_select_best_match] gives to one candidate. *)
Definition score_of (c : Claim) (m : ResultValue) : Z :=
  let score := 0%Z in
  (* Metric match *)
  let score :=
    match Parser.metric_hint c, Matcher.metric m with
    | Some hint, Some metric =>
        if truthy hint && truthy metric then
          if eqb (lower hint) (lower metric) then (score + 10)%Z else score
        else score
    | _, _ => score
    end in
  (* Model match *)
  let score :=
    match Parser.model_hint c, Matcher.model m with
    | Some hint, Some model =>
        if truthy hint && truthy model then
          if contains (lower hint) (lower model) then (score + 10)%Z
          else if contains (lower model) (lower hint) then (score + 10)%Z
          else score
        else score
    | _, _ => score
    end in
  (* Path contains relevant keywords *)
  let score :=
    match Parser.metric_hint c with
    | Some hint =>
        if truthy hint && contains (lower hint) (lower (Matcher.path m))
        then (score + 5)%Z else score
    | None => score
    end in
  score.

(** [scored.sort(key=lambda x: x[0], reverse=True)]: Python's sort is
    stable, also in reverse: among equal scores the earlier stays first.
    [insert_desc x l] puts [x], which stood before the elements of [l], in
    front of the first element whose score is not above its own. *)
Fixpoint insert_desc (x : Z * ResultValue) (l : list (Z * ResultValue))
  : list (Z * ResultValue) :=
  match l with
  | [] => [x]
  | y :: l' =>
      if (fst y <=? fst x)%Z then x :: l else y :: insert_desc x l'
  end.

Fixpoint sort_desc (l : list (Z * ResultValue)) : list (Z * ResultValue) :=
  match l with
  | [] => []
  | x :: l' => insert_desc x (sort_desc l')
  end.

Definition _select_best_match (c : Claim) (matches : list ResultValue)
  : py ResultValue :=
  match matches with
  | [m] => Ok m
  | _ =>
      let scored := map (fun m => (score_of c m, m)) matches in
      match sort_desc scored with
      | best :: _ => Ok (snd best)
      | [] => Raise IndexError
      end
  end.

Definition diff_pct_of (best_match : ResultValue) (c : Claim) : py float :=
  q <- PyFloat.truediv (abs (Matcher.value best_match - Parser.value c))
         (abs (Matcher.value best_match)) ;;
  Ok (q * 100)%float.

Definition verify_claim (self : Validator) (c : Claim)
  : py VerificationResult :=
  (* First, try exact match *)
  let exact_matches := find_exact (matcher self) (Parser.value c) in
  match exact_matches with
  | _ :: _ =>
      best_match <- _select_best_match c exact_matches ;;
      Ok {| claim := c;
            status := EXACT_MATCH;
            matched_value := Some best_match;
            difference_pct := Some 0%float;
            message := ExactMatchIn (source_file best_match) |}
  | [] =>
      (* Try close match within tolerance *)
      close_matches <-
        find_matches (matcher self) (Parser.value c) (tolerance_pct self) ;;
      match close_matches with
      | _ :: _ =>
          best_match <- _select_best_match c close_matches ;;
          diff_pct <- diff_pct_of best_match c ;;
          Ok {| claim := c;
                status := CLOSE_MATCH;
                matched_value := Some best_match;
                difference_pct := Some diff_pct;
                message := CloseMatchIn diff_pct (source_file best_match) |}
      | [] =>
          (* Try wider tolerance to find potential mismatches *)
          wide_matches <- find_matches (matcher self) (Parser.value c) 10 ;;
          match wide_matches with
          | _ :: _ =>
              best_match <- _select_best_match c wide_matches ;;
              diff_pct <- diff_pct_of best_match c ;;
              Ok {| claim := c;
                    status := MISMATCH;
                    matched_value := Some best_match;
                    difference_pct := Some diff_pct;
                    message :=
                      MismatchActual (Matcher.value best_match) diff_pct |}
          | [] =>
              (* No match found *)
              Ok {| claim := c;
                    status := UNVERIFIED;
                    matched_value := None;
                    difference_pct := None;
                    message := NoMatchingValue |}
          end
      end
  end.

Definition verify_all (self : Validator) (claims : list Claim)
  : py (list VerificationResult) :=
  for_each claims
    (fun results c => r <- verify_claim self c ;; Ok (results ++ [r])) [].

End Validator.

(** ** Notions the properties are stated with *)

Module Notions.

Import PyStr.

(** What [==] sees of a float: nothing of a nan, no sign of a zero. *)
Definition canon (x : float) : option spec_float :=
  match Prim2SF x with
  | S754_nan => None
  | S754_zero _ => Some (S754_zero false)
  | f => Some f
  end.

(** The test [find_matches] makes on one observation. *)
Definition within_tolerance (target tolerance_pct : float)
  (o : Matcher.ResultValue) : bool :=
  negb (Matcher.value o =? 0)%float
  && (abs (Matcher.value o - target) / abs (Matcher.value o) * 100
      <=? tolerance_pct)%float.

End Notions.


(** ** Notions the index invariant is stated with *)

Module IndexNotions.

Import Matcher.

(** The bucket of the first key equal ([==]) to [v]. *)
Fixpoint lookup (d : dict) (v : float) : option (list ResultValue) :=
  match d with
  | [] => None
  | (k, b) :: d' => if (fval k =? v)%float then Some b else lookup d' v
  end.

Definition bucket_or_empty (o : option (list ResultValue))
  : list ResultValue :=
  match o with Some b => b | None => [] end.

(** The values of the keys, in insertion order. *)
Definition keys (d : dict) : list float := map (fun e => fval (fst e)) d.

(** No two keys are equal. *)
Fixpoint uniq (ks : list float) : Prop :=
  match ks with
  | [] => True
  | k :: ks' => (forall k', In k' ks' -> (k =? k')%float = false) /\ uniq ks'
  end.

(** No key of [d] is the object [key]. *)
Definition fresh_for (d : dict) (key : float_obj) : Prop :=
  forall e, In e d -> oid (fst e) <> oid key.

(** The observations of [l] whose rounded value equals [v], in order. *)
Definition rounded_to (v : float) (l : list ResultValue)
  : list ResultValue :=
  filter (fun rv => (PyFloat.round6 (value rv) =? v)%float) l.

(** The invariant of the loop of [_build_index], [done] being the
    observations already indexed. *)
Record indexed (d : dict) (done : list ResultValue) : Prop := {
  ix_lookup : forall v, bucket_or_empty (lookup d v) = rounded_to v done;
  ix_member : forall rv, In rv done ->
      exists k b, In (k, b) d /\
        (fval k = PyFloat.round6 (value rv) \/
         (fval k =? PyFloat.round6 (value rv))%float = true) /\
        In rv b;
  ix_uniq : uniq (keys d)
}.

End IndexNotions.


(** ** The score of the specification *)

Module ScoreNotions.

Import PyStr.

(** A hint or an attribute counts when it is a string that is not empty. *)
Definition present (o : option str) : bool := truthy_opt o.

Definition text (o : option str) : str :=
  match o with Some s => s | None => [] end.

(** The claim's metric hint is present and equals the candidate's metric,
    case-insensitively. *)
Definition metric_equal (c : Parser.Claim) (m : Matcher.ResultValue) : bool :=
  present (Parser.metric_hint c) && present (Matcher.metric m)
  && eqb (lower (text (Parser.metric_hint c)))
         (lower (text (Matcher.metric m))).

(** The claim's model hint is present and it or the candidate's model is a
    case-insensitive substring of the other. *)
Definition model_overlap (c : Parser.Claim) (m : Matcher.ResultValue)
  : bool :=
  present (Parser.model_hint c) && present (Matcher.model m)
  && (contains (lower (text (Parser.model_hint c)))
               (lower (text (Matcher.model m)))
      || contains (lower (text (Matcher.model m)))
                  (lower (text (Parser.model_hint c)))).

(** The claim's metric hint is present and is a case-insensitive substring
    of the candidate's path. *)
Definition metric_in_path (c : Parser.Claim) (m : Matcher.ResultValue)
  : bool :=
  present (Parser.metric_hint c)
  && contains (lower (text (Parser.metric_hint c)))
              (lower (Matcher.path m)).

Definition additive_score (c : Parser.Claim) (m : Matcher.ResultValue) : Z :=
  ((if metric_equal c m then 10 else 0)
   + (if model_overlap c m then 10 else 0)
   + (if metric_in_path c m then 5 else 0))%Z.

(** The score as the words of the specification have it, a hint being
    present as soon as it is not [None]. *)
Definition is_some (o : option str) : bool :=
  match o with Some _ => true | None => false end.

Definition additive_score_as_stated (c : Parser.Claim)
  (m : Matcher.ResultValue) : Z :=
  ((if is_some (Parser.metric_hint c)
       && eqb (lower (text (Parser.metric_hint c)))
              (lower (text (Matcher.metric m)))
       && is_some (Matcher.metric m)
    then 10 else 0)
   + (if is_some (Parser.model_hint c) && is_some (Matcher.model m)
         && (contains (lower (text (Parser.model_hint c)))
                      (lower (text (Matcher.model m)))
             || contains (lower (text (Matcher.model m)))
                         (lower (text (Parser.model_hint c))))
      then 10 else 0)
   + (if is_some (Parser.metric_hint c)
         && contains (lower (text (Parser.metric_hint c)))
                     (lower (Matcher.path m))
      then 5 else 0))%Z.

End ScoreNotions.

(** ** Sample data *)

Module Samples.

Import PyStr.

Definition observation (v : float) (metric model : option str) (path : str)
  : Matcher.ResultValue :=
  {| Matcher.value := v;
     Matcher.source_file := lit "results.json";
     Matcher.path := path;
     Matcher.model := model;
     Matcher.dataset := None;
     Matcher.metric := metric |}.

Definition claim_of (v : float) (metric_hint model_hint : option str)
  : Parser.Claim :=
  {| Parser.value := v;
     Parser.raw_text := [];
     Parser.line_number := 1;
     Parser.context := [];
     Parser.metric_hint := metric_hint;
     Parser.model_hint := model_hint |}.

(** A matcher with the given observations, its index built. *)
Definition matcher_of (vs : list Matcher.ResultValue)
  : Matcher.ResultMatcher :=
  let self := {| Matcher.values := vs; Matcher.index := [] |} in
  match Matcher._build_index self with
  | Ok self' => self'
  | Raise _ => self
  end.

Definition validator_of (vs : list Matcher.ResultValue) (tolerance : float)
  : Validator.Validator :=
  {| Validator.matcher := matcher_of vs;
     Validator.tolerance_pct := tolerance |}.

Definition mae_2_50 : Matcher.ResultValue :=
  observation 2.5 (Some (lit "mae")) None (lit "metrics.mae").

Definition mae_2_4404 : Matcher.ResultValue :=
  observation 2.4404 (Some (lit "mae")) None (lit "metrics.mae").

Definition claim_2_10 : Parser.Claim :=
  claim_of 2.1 (Some (lit "mae")) None.

(** Two candidates for a claim on the MAE of XGBoost: the first has the
    metric of the claim, the second the model. *)
Definition xgboost_mae_claim : Parser.Claim :=
  claim_of 2.44 (Some (lit "mae")) (Some (lit "xgboost")).

Definition with_metric : Matcher.ResultValue :=
  observation 2.44 (Some (lit "mae")) None (lit "row_0.score").

Definition with_model : Matcher.ResultValue :=
  observation 2.44 None (Some (lit "xgboost")) (lit "row_1.score").

(** A claim whose metric hint is the empty string, and two candidates. *)
Definition empty_hint_claim : Parser.Claim :=
  claim_of 2.44 (Some []) None.

Definition metric_named : Matcher.ResultValue :=
  observation 2.44 (Some (lit "mae")) None (lit "row_0.score").

Definition metric_empty : Matcher.ResultValue :=
  observation 2.44 (Some []) None (lit "row_1.score").

End Samples.


(** ** Notions the extractor's properties are stated with *)

Module TokenNotions.

Import PyStr Parser.

(** A character of the numeric part of a token. *)
Definition is_numeric_char (c : ascii) : bool :=
  is_digit c || eqb_char c "," || eqb_char c ".".

(** The pattern without its last group, [[\d,]+\.?\d*], matched at the head
    of [s]: the length of the match. *)
Definition match_mantissa (s : str) : option nat :=
  let (a, r1) := span is_number_char s in
  match a with
  | [] => None
  | _ :: _ =>
      let (dot, r2) :=
        match r1 with
        | c :: r => if eqb_char c "." then (1, r) else (0, r1)
        | [] => (0, r1)
        end in
      let (b, _) := span is_digit r2 in
      Some (List.length a + dot + List.length b)
  end.

(** The factor a suffix letter stands for. *)
Definition magnitude (c : ascii) : float :=
  if eqb_char (lower_char c) "k" then 1000%float
  else if eqb_char (lower_char c) "m" then 1000000%float
  else 1000000000%float.

(** The claim [c] is the record built from the match [(s, e)] of line
    number [n]. *)
Definition from_token (line : str) (n : nat) (c : Claim) (s e : nat) : Prop :=
  raw_text c = slice line s e /\
  _parse_number (raw_text c) = Ok (value c) /\
  line_number c = n /\
  context c = slice line (s - 50) (Nat.min (List.length line) (e + 50)) /\
  metric_hint c = _identify_metric (context c) /\
  model_hint c = _identify_model (context c) /\
  (2 <= List.length (raw_text c) \/ has_char "." (raw_text c) = true) /\
  (value c =? 0)%float = false /\
  (1000000000 <? value c)%float = false.

(** The token [raw] is noise: short without a point, or of a value that is
    0 or above 1e9. *)
Definition noise (raw : str) : Prop :=
  (List.length raw < 2 /\ has_char "." raw = false) \/
  (exists v, _parse_number raw = Ok v /\
             ((v =? 0)%float = true \/ (1000000000 <? v)%float = true)).

End TokenNotions.


(** ** validator.py, reporter.py and cli.py: the run over all claims *)

Module Report.

Import PyStr Parser Matcher Validator.

(** [verify_paper] *)
Definition verify_paper (claims : list Claim) (matcher : ResultMatcher)
  (tolerance_pct : float) : py (list VerificationResult) :=
  let validator :=
    {| Validator.matcher := matcher;
       Validator.tolerance_pct := tolerance_pct |} in
  verify_all validator claims.

(** [MatchStatus.value] *)
Definition status_value (s : MatchStatus) : str :=
  match s with
  | EXACT_MATCH => lit "exact"
  | CLOSE_MATCH => lit "close"
  | MISMATCH => lit "mismatch"
  | UNVERIFIED => lit "unverified"
  end.

(** The dict [stats] of [Reporter._calculate_stats], one field a key. *)
Record Stats : Type := {
  total : nat;
  exact : nat;
  close : nat;
  mismatch : nat;
  unverified : nat
}.

(** The body of the loop of [_calculate_stats]. *)
Definition stats_step (stats : Stats) (r : VerificationResult) : Stats :=
  match status r with
  | EXACT_MATCH =>
      {| total := total stats; exact := exact stats + 1;
         close := close stats; mismatch := mismatch stats;
         unverified := unverified stats |}
  | CLOSE_MATCH =>
      {| total := total stats; exact := exact stats;
         close := close stats + 1; mismatch := mismatch stats;
         unverified := unverified stats |}
  | MISMATCH =>
      {| total := total stats; exact := exact stats;
         close := close stats; mismatch := mismatch stats + 1;
         unverified := unverified stats |}
  | UNVERIFIED =>
      {| total := total stats; exact := exact stats;
         close := close stats; mismatch := mismatch stats;
         unverified := unverified stats + 1 |}
  end.

Definition _calculate_stats (results : list VerificationResult) : Stats :=
  let stats :=
    {| total := List.length results; exact := 0; close := 0; mismatch := 0;
       unverified := 0 |} in
  fold_left stats_step results stats.

(** The border style and the headline [_print_summary] chooses. *)
Inductive Style : Type := green | yellow | red.

Inductive Headline : Type :=
| AllMatch
| PotentialMismatches (n : nat)
| Mismatches (n : nat).

Definition _print_summary (stats : Stats) : Style * Headline :=
  if (mismatch stats =? 0)%nat then (green, AllMatch)
  else if (mismatch stats <=? 2)%nat then
    (yellow, PotentialMismatches (mismatch stats))
  else (red, Mismatches (mismatch stats)).

(** The end of [cli.check]: the count of mismatches and the exit code (0
    when the command returns, 1 on [typer.Exit(code=1)]). *)
Definition count_mismatches (verification_results : list VerificationResult)
  : nat :=
  fold_left
    (fun n r =>
       if eqb (status_value (status r)) (lit "mismatch") then n + 1 else n)
    verification_results 0.

Definition exit_code (verification_results : list VerificationResult) : nat :=
  let mismatches := count_mismatches verification_results in
  if (0 <? mismatches)%nat then 1 else 0.

End Report.

(** ** Notions the properties of a run are stated with *)

Module RunNotions.

Import Validator.

(** How good a status is: exact above close above mismatch above
    unverified. *)
Definition rank (s : MatchStatus) : nat :=
  match s with
  | EXACT_MATCH => 3
  | CLOSE_MATCH => 2
  | MISMATCH => 1
  | UNVERIFIED => 0
  end.

Definition status_eqb (a b : MatchStatus) : bool := (rank a =? rank b)%nat.

(** The number of results of status [s]. *)
Definition count_status (s : MatchStatus) (results : list VerificationResult)
  : nat :=
  List.length (filter (fun r => status_eqb (status r) s) results).

(** The status the ladder gives for the candidates of its three tiers. *)
Definition tier_status {A : Type} (exact close wide : list A) : MatchStatus :=
  match exact, close, wide with
  | _ :: _, _, _ => EXACT_MATCH
  | [], _ :: _, _ => CLOSE_MATCH
  | [], [], _ :: _ => MISMATCH
  | [], [], [] => UNVERIFIED
  end.

(** [abs(best.value - claim.value) / abs(best.value) * 100] *)
Definition relative_difference (best : Matcher.ResultValue)
  (c : Parser.Claim) : float :=
  (abs (Matcher.value best - Parser.value c) / abs (Matcher.value best)
   * 100)%float.

End RunNotions.


(** ** Sample data of a run *)

Module RunSamples.

Import PyStr Validator.

Definition mae_2_12 : Matcher.ResultValue :=
  Samples.observation 2.12 (Some (lit "mae")) None (lit "metrics.mae").

Definition claim_2_10_plain : Parser.Claim := Samples.claim_of 2.1 None None.

(** The result for [claim_2_10_plain] against [mae_2_12] under a tolerance
    of 1 at least. *)
Definition close_2_10 : VerificationResult :=
  {| claim := claim_2_10_plain;
     status := CLOSE_MATCH;
     matched_value := Some mae_2_12;
     difference_pct := Some 0.94339622641509513%float;
     message := CloseMatchIn 0.94339622641509513 (lit "results.json") |}.

(** The result under a tolerance below 0.94. *)
Definition mismatch_2_10 : VerificationResult :=
  {| claim := claim_2_10_plain;
     status := MISMATCH;
     matched_value := Some mae_2_12;
     difference_pct := Some 0.94339622641509513%float;
     message := MismatchActual 2.12 0.94339622641509513 |}.

End RunSamples.


(** ** Notions the properties of a document are stated with *)

Module DocumentNotions.

Import PyStr Parser.

(** The claim [c] with its line number raised by [k]. *)
Definition renumber (k : nat) (c : Claim) : Claim :=
  {| value := value c;
     raw_text := raw_text c;
     line_number := line_number c + k;
     context := context c;
     metric_hint := metric_hint c;
     model_hint := model_hint c |}.

(** The names the patterns of [MODEL_PATTERNS] start with. *)
Definition pattern_name (p : model_pattern) : str :=
  match p with
  | Name n => n
  | NameVariant n _ => n
  end.

Definition model_names : list str := map pattern_name MODEL_PATTERNS.

(** The names [METRIC_KEYWORDS] maps from. *)
Definition metric_names : list str := map fst METRIC_KEYWORDS.

End DocumentNotions.


(** ** matcher.py: what the loaders share *)

Module Loader.

Import PyStr Matcher.

(** [ResultMatcher._guess_metric] *)
Definition _guess_metric (path : str) : option str :=
  let path_lower := lower path in
  if contains (lit "mae") path_lower then Some (lit "mae")
  else if contains (lit "rmse") path_lower then Some (lit "rmse")
  else if contains (lit "smape") path_lower then Some (lit "smape")
  else if contains (lit "latency") path_lower then Some (lit "latency")
  else if contains (lit "vram") path_lower then Some (lit "vram")
  else None.

(** [s.replace(a, b)] for two characters *)
Definition replace_char (a b : ascii) (s : str) : str :=
  map (fun c => if eqb_char a c then b else c) s.

Definition models : list str :=
  [ lit "xgboost"; lit "arima"; lit "chronos"; lit "moirai"; lit "dlinear";
    lit "patchtst"; lit "timesfm" ].

Definition datasets : list str :=
  [ lit "etth1"; lit "etth2"; lit "exchange"; lit "traffic"; lit "weather" ].

(** [any(m in part for m in names)] *)
Definition mentions (names : list str) (part : str) : bool :=
  existsb (fun m => contains m part) names.

(** The body of the loop of [_parse_filename], on the pair
    [(model, dataset)]. *)
Definition filename_step (state : option str * option str) (part : str)
  : option str * option str :=
  let (model, dataset) := state in
  let model := if mentions models part then Some part else model in
  let dataset := if mentions datasets part then Some part else dataset in
  (model, dataset).

(** [ResultMatcher._parse_filename] *)
Definition _parse_filename (filename : str) : option str * option str :=
  let parts := split "_" (replace_char "-" "_" (lower filename)) in
  fold_left filename_step parts (None, None).

(** What [json.load] returns: the [Any] that [_extract_from_dict] walks.
    The keys of a dict are strings. *)
Inductive json : Type :=
| JNull
| JBool (b : bool)
| JInt (z : Z)
| JFloat (x : float)
| JStr (s : str)
| JList (items : list json)
| JDict (items : list (str * json)).

(** The exception the walk can raise on data of bounded depth; the limit
    of the interpreter on the depth of recursion is not modelled. *)
Inductive load_exn : Type := OverflowError.

(** [float(n)] for an [int]: the nearest double, and [OverflowError] when
    it is out of range. *)
Definition float_of_int (z : Z) : load_exn + float :=
  let x := PyFloat.nearest_Z_ratio (z <? 0)%Z (Z.abs z) 1 in
  if (abs x =? infinity)%float then inl OverflowError else inr x.

(** [str(i)] for an index *)
Definition str_of_nat (i : nat) : str :=
  list_ascii_of_string (NilZero.string_of_uint (Nat.to_uint i)).

(** A loop over [items] whose body may raise: the values as the loop leaves
    them, and the exception if one was raised.  [i] counts the items. *)
Definition items_loop {A : Type}
  (body : nat -> A -> list ResultValue -> list ResultValue * option load_exn)
  : nat -> list A -> list ResultValue -> list ResultValue * option load_exn :=
  fix loop (i : nat) (items : list A) (values : list ResultValue) :=
    match items with
    | [] => (values, None)
    | x :: rest =>
        match body i x values with
        | (values', None) => loop (S i) rest values'
        | raised => raised
        end
    end.

(** [self.values.append(ResultValue(...))] of the last branch *)
Definition append_value (x : float) (source_file path : str)
  (model dataset : option str) (values : list ResultValue)
  : list ResultValue :=
  values ++
  [ {| value := x;
       source_file := source_file;
       path := path;
       model := model;
       dataset := dataset;
       metric := _guess_metric path |} ].

(** [ResultMatcher._extract_from_dict], on [self.values]: the values it
    leaves, and the exception it raised if any. *)
Fixpoint _extract_from_dict (data : json) (source_file path : str)
  (model dataset : option str) (values : list ResultValue)
  : list ResultValue * option load_exn :=
  match data with
  | JDict items =>
      items_loop
        (fun _ (kv : str * json) values =>
           let (key, value) := kv in
           let new_path :=
             if truthy path then path ++ lit "." ++ key else key in
           _extract_from_dict value source_file new_path model dataset values)
        0 items values
  | JList items =>
      if (100 <? List.length items)%nat then (values, None)
      else
        items_loop
          (fun i item values =>
             _extract_from_dict item source_file
               (path ++ lit "[" ++ str_of_nat i ++ lit "]") model dataset
               values)
          0 items values
  | JBool b =>
      (append_value (if b then 1 else 0)%float source_file path model dataset
         values, None)
  | JInt z =>
      match float_of_int z with
      | inr x =>
          (append_value x source_file path model dataset values, None)
      | inl e => (values, Some e)
      end
  | JFloat x =>
      (append_value x source_file path model dataset values, None)
  | JNull | JStr _ => (values, None)
  end.

End Loader.

(** ** Notions the loaders' properties are stated with *)

Module LoaderNotions.

Import PyStr Loader.

(** Every [int] of the data fits a double. *)
Fixpoint ints_fit (data : json) : bool :=
  match data with
  | JInt z => match float_of_int z with inr _ => true | inl _ => false end
  | JList items => forallb ints_fit items
  | JDict items => forallb (fun kv => ints_fit (snd kv)) items
  | _ => true
  end.

(** The last element of [l] that satisfies [p]. *)
Definition find_last {A : Type} (p : A -> bool) (l : list A) : option A :=
  find p (rev l).

End LoaderNotions.


(** ** Notions the walk of the data is stated with *)

Module WalkNotions.

Import PyStr Matcher Loader.

(** The value [rv] was ingested from [source_file] under [path], with the
    attribution [model] and [dataset]. *)
Definition ingested (source_file path : str) (model dataset : option str)
  (rv : ResultValue) : Prop :=
  Matcher.source_file rv = source_file /\
  Matcher.model rv = model /\
  Matcher.dataset rv = dataset /\
  Matcher.metric rv = _guess_metric (Matcher.path rv) /\
  startswith path (Matcher.path rv) = true.

(** What the walk of [data] does to the values [values]: it only appends,
    what it appends was [ingested], and it raises nothing when the ints
    fit. *)
Definition walk_ok (data : json) : Prop :=
  forall source_file path model dataset values,
  exists new,
    fst (_extract_from_dict data source_file path model dataset values)
    = values ++ new /\
    Forall (ingested source_file path model dataset) new /\
    (LoaderNotions.ints_fit data = true ->
     snd (_extract_from_dict data source_file path model dataset values)
     = None).

End WalkNotions.

(** ** Induction on the data of a result file *)

Section JsonInduction.

Import PyStr Loader.

Variable P : json -> Prop.
Hypothesis Hnull : P JNull.
Hypothesis Hbool : forall b, P (JBool b).
Hypothesis Hint : forall z, P (JInt z).
Hypothesis Hfloat : forall x, P (JFloat x).
Hypothesis Hstr : forall s, P (JStr s).
Hypothesis Hlist : forall items, Forall P items -> P (JList items).
Hypothesis Hdict :
  forall items, Forall (fun kv => P (snd kv)) items -> P (JDict items).

(** Induction on the data, the items of a list and of a dict included. *)
Fixpoint json_nested_ind (data : json) : P data :=
  match data with
  | JNull => Hnull
  | JBool b => Hbool b
  | JInt z => Hint z
  | JFloat x => Hfloat x
  | JStr s => Hstr s
  | JList items =>
      Hlist items
        ((fix go (l : list json) : Forall P l :=
            match l with
            | [] => Forall_nil P
            | x :: l' => Forall_cons x (json_nested_ind x) (go l')
            end) items)
  | JDict items =>
      Hdict items
        ((fix go (l : list (str * json))
            : Forall (fun kv => P (snd kv)) l :=
            match l with
            | [] => Forall_nil _
            | kv :: l' =>
                Forall_cons kv (json_nested_ind (snd kv)) (go l')
            end) items)
  end.

End JsonInduction.


(** ** Notions of evidence for a claim *)

Module EvidenceNotions.

Import Matcher RunNotions.

(** Some observation has the rounded value of the claim. *)
Definition exact_evidence (m : ResultMatcher) (c : Parser.Claim) : Prop :=
  exists o,
    In o (values m) /\
    (PyFloat.round6 (value o) =? PyFloat.round6 (Parser.value c))%float
    = true.

(** Some observation that is not 0 differs from the claim by [T] percent
    of itself at most. *)
Definition evidence_within (m : ResultMatcher) (c : Parser.Claim) (T : float)
  : Prop :=
  exists o,
    In o (values m) /\
    (value o =? 0)%float = false /\
    (relative_difference o c <=? T)%float = true.

End EvidenceNotions.

(** * Properties *)

(** ** Facts on binary64 comparison *)

Module FloatFacts.

Import Notions.
Open Scope float_scope.

Lemma SFcompare_finite_pos (m1 m2 : positive) (e1 e2 : Z) :
  SFcompare (S754_finite false m1 e1) (S754_finite false m2 e2) =
  Some match (e1 ?= e2)%Z with
       | Lt => Lt
       | Gt => Gt
       | Eq => (m1 ?= m2)%positive
       end.
Proof. reflexivity. Qed.

Lemma SFcompare_finite_neg (m1 m2 : positive) (e1 e2 : Z) :
  SFcompare (S754_finite true m1 e1) (S754_finite true m2 e2) =
  Some match (e1 ?= e2)%Z with
       | Lt => Gt
       | Gt => Lt
       | Eq => CompOpp (m1 ?= m2)%positive
       end.
Proof. reflexivity. Qed.

(** The order of [SFcompare] on two finite numbers of one sign is the
    lexicographic one on exponent and mantissa. *)
Ltac lex_cases :=
  repeat match goal with
    | |- context [(?a ?= ?b)%Z] => destruct (Z.compare_spec a b)
    | |- context [(?a ?= ?b)%positive] => destruct (Pos.compare_spec a b)
    | H : context [(?a ?= ?b)%Z] |- _ => destruct (Z.compare_spec a b)
    | H : context [(?a ?= ?b)%positive] |- _ => destruct (Pos.compare_spec a b)
    end;
  simpl in *; try congruence; try lia.

(** [<=] followed by [<] is [<=], on the specification. *)
Lemma SFleb_ltb_trans (a b c : spec_float) :
  SFleb a b = true -> SFltb b c = true -> SFleb a c = true.
Proof.
  unfold SFleb, SFltb.
  destruct a as [sa|sa| |sa ma ea], b as [sb|sb| |sb mb eb],
    c as [sc|sc| |sc mc ec];
    try (destruct sa); try (destruct sb); try (destruct sc);
    try (simpl; congruence);
    rewrite ?SFcompare_finite_pos, ?SFcompare_finite_neg;
    intros H1 H2; lex_cases.
Qed.

Lemma leb_ltb_trans (a b c : float) :
  (a <=? b) = true -> (b <? c) = true -> (a <=? c) = true.
Proof.
  rewrite !FloatAxioms.leb_spec, FloatAxioms.ltb_spec. apply SFleb_ltb_trans.
Qed.

Lemma SFeqb_canon (a b : spec_float) :
  SFeqb a b = true <->
  (match a with S754_nan => None | S754_zero _ => Some (S754_zero false)
           | f => Some f end
   = match b with S754_nan => None | S754_zero _ => Some (S754_zero false)
             | f => Some f end
   /\ a <> S754_nan).
Proof.
  unfold SFeqb.
  destruct a as [sa|sa| |sa ma ea], b as [sb|sb| |sb mb eb];
    try (destruct sa); try (destruct sb);
    try (simpl; split; [congruence | intros [? ?]; congruence]);
    try (simpl; split; [intros _; split; congruence | reflexivity]);
    rewrite ?SFcompare_finite_pos, ?SFcompare_finite_neg.
  - split.
    + intros H. lex_cases. subst. split; congruence.
    + intros [H _]. injection H as -> ->.
      rewrite Z.compare_refl, Pos.compare_refl. reflexivity.
  - split.
    + intros H. lex_cases. subst. split; congruence.
    + intros [H _]. injection H as -> ->.
      rewrite Z.compare_refl, Pos.compare_refl. reflexivity.
Qed.

Lemma eqb_canon (a b : float) :
  (a =? b) = true <-> (canon a = canon b /\ canon a <> None).
Proof.
  rewrite FloatAxioms.eqb_spec, SFeqb_canon. unfold canon.
  destruct (Prim2SF a), (Prim2SF b); intuition congruence.
Qed.

Lemma eqb_sym (a b : float) : (a =? b) = (b =? a).
Proof.
  apply Bool.eq_iff_eq_true. rewrite !eqb_canon.
  intuition congruence.
Qed.

(** Equal floats compare alike with any third one. *)
Lemma eqb_congr (a b v : float) :
  (a =? b) = true -> (a =? v) = (b =? v).
Proof.
  intros H. apply Bool.eq_iff_eq_true. rewrite eqb_canon in H.
  rewrite !eqb_canon. intuition congruence.
Qed.

Lemma eqb_congr_r (a b v : float) :
  (a =? b) = true -> (v =? a) = (v =? b).
Proof.
  intros H. rewrite (eqb_sym v a), (eqb_sym v b). now apply eqb_congr.
Qed.

(** [abs x == 0] exactly when [x == 0]. *)
Lemma abs_eqb_zero (x : float) : (abs x =? 0) = (x =? 0).
Proof.
  rewrite !FloatAxioms.eqb_spec, FloatAxioms.abs_spec.
  destruct (Prim2SF x) as [s|s| |s m e]; try destruct s; reflexivity.
Qed.

End FloatFacts.

(** ** The value index *)

Module MatcherFacts.

Import PyStr Matcher Notions FloatFacts.

Lemma matches_step_filter (target tol : float) (acc : list ResultValue)
  (rv : ResultValue) :
  matches_step target tol acc rv =
  Ok (acc ++ filter (within_tolerance target tol) [rv]).
Proof.
  unfold matches_step, within_tolerance, PyFloat.truediv. simpl.
  rewrite abs_eqb_zero.
  destruct (value rv =? 0)%float; simpl.
  - now rewrite app_nil_r.
  - destruct (_ <=? tol)%float; simpl; [reflexivity | now rewrite app_nil_r].
Qed.

Lemma find_matches_loop (target tol : float) (l acc : list ResultValue) :
  for_each l (matches_step target tol) acc =
  Ok (acc ++ filter (within_tolerance target tol) l).
Proof.
  revert acc. induction l as [|rv l IH]; intros acc; simpl.
  - now rewrite app_nil_r.
  - rewrite matches_step_filter. simpl bind. rewrite IH.
    rewrite <- app_assoc. f_equal. f_equal.
    simpl. destruct (within_tolerance target tol rv); reflexivity.
Qed.

Lemma find_matches_filter (self : ResultMatcher) (V T : float) :
  find_matches self V T = Ok (filter (within_tolerance V T) (values self)).
Proof. unfold find_matches. now rewrite find_matches_loop. Qed.

(** C3. [find_matches(V, T)] returns, without raising, exactly the
    observations [o] with [o.value != 0] and
    [abs(o.value - V) / abs(o.value) * 100 <= T], in the order of
    [self.values]; the division is never one by zero. *)
Theorem find_matches_exactly (self : ResultMatcher) (V T : float) :
  find_matches self V T =
  Ok (filter
        (fun o =>
           negb (value o =? 0)%float
           && (abs (value o - V) / abs (value o) * 100 <=? T)%float)
        (values self)).
Proof.
  unfold find_matches. rewrite find_matches_loop. reflexivity.
Qed.

Lemma within_tolerance_mono (V T1 T2 : float) (o : ResultValue) :
  (T1 <? T2)%float = true ->
  within_tolerance V T1 o = true -> within_tolerance V T2 o = true.
Proof.
  unfold within_tolerance. intros HT H.
  apply andb_true_iff in H as [H0 H1]. rewrite H0. simpl.
  eapply leb_ltb_trans; eassumption.
Qed.

(** C4. Tolerance monotonicity: with [T1 < T2], whatever
    [find_matches(V, T1)] returns is returned by [find_matches(V, T2)] too. *)
Theorem find_matches_monotone (self : ResultMatcher) (V T1 T2 : float)
  (l1 : list ResultValue) :
  (T1 <? T2)%float = true ->
  find_matches self V T1 = Ok l1 ->
  exists l2, find_matches self V T2 = Ok l2 /\ incl l1 l2.
Proof.
  intros HT H1. unfold find_matches in *.
  rewrite find_matches_loop in *. injection H1 as <-.
  eexists. split; [reflexivity|].
  intros o Ho. simpl in *. apply filter_In in Ho as [Hin Hw].
  apply filter_In. split; [assumption|].
  eapply within_tolerance_mono; eassumption.
Qed.

(** An instance: the tolerances 1 and 10 on one observation. *)
Lemma find_matches_monotone_witness :
  exists l2,
    find_matches (Samples.matcher_of [Samples.mae_2_4404]) 2.44 10 = Ok l2 /\
    incl [Samples.mae_2_4404] l2.
Proof.
  apply (find_matches_monotone (Samples.matcher_of [Samples.mae_2_4404])
           2.44 1 10 [Samples.mae_2_4404]);
    vm_compute; reflexivity.
Defined.

End MatcherFacts.

(** ** The exact-match index *)

Module IndexFacts.

Import Matcher Notions IndexNotions FloatFacts.

Lemma fresh_oid_above (d : dict) (e : float_obj * list ResultValue) :
  In e d -> oid (fst e) < fresh_oid d.
Proof.
  unfold fresh_oid. induction d as [|e' d IH]; simpl; [tauto|].
  intros [->|H]; [lia|]. specialize (IH H). lia.
Qed.

Lemma round_obj_fresh (d : dict) (x : float) : fresh_for d (round_obj d x).
Proof.
  intros e He. apply fresh_oid_above in He. simpl. lia.
Qed.

Lemma fresh_for_tail e d key : fresh_for (e :: d) key -> fresh_for d key.
Proof. intros H e' He'. apply H. now right. Qed.

Lemma key_match_fresh (d : dict) (key : float_obj) e :
  fresh_for d key -> In e d ->
  key_match (fst e) key = (fval (fst e) =? fval key)%float.
Proof.
  intros Hf He. unfold key_match.
  apply Hf in He. apply Nat.eqb_neq in He. now rewrite He.
Qed.

Lemma key_match_fresh_head (d : dict) (key k : float_obj) b :
  fresh_for ((k, b) :: d) key ->
  key_match k key = (fval k =? fval key)%float.
Proof.
  intros Hf.
  exact (key_match_fresh ((k, b) :: d) key (k, b) Hf (or_introl eq_refl)).
Qed.

Lemma dict_get_fresh (d : dict) (key : float_obj) :
  fresh_for d key -> dict_get d key = lookup d (fval key).
Proof.
  induction d as [|[k b] d IH]; intros Hf; simpl; [reflexivity|].
  rewrite (key_match_fresh_head d key k b Hf).
  simpl. rewrite IH by (eapply fresh_for_tail; eassumption). reflexivity.
Qed.

Lemma dict_get_absent (d : dict) (key : float_obj) :
  dict_contains d key = false -> dict_get d key = None.
Proof.
  unfold dict_contains.
  induction d as [|[k b] d IH]; simpl; [reflexivity|].
  intros H. apply orb_false_iff in H as [H1 H2]. rewrite H1. auto.
Qed.

Lemma dict_get_present (d : dict) (key : float_obj) :
  dict_contains d key = true -> exists b, dict_get d key = Some b.
Proof.
  unfold dict_contains.
  induction d as [|[k b] d IH]; simpl; [discriminate|].
  destruct (key_match k key); simpl; eauto.
Qed.

Lemma dict_set_absent (d : dict) (key : float_obj) x :
  dict_contains d key = false -> dict_set d key x = d ++ [(key, x)].
Proof.
  unfold dict_contains.
  induction d as [|[k b] d IH]; simpl; [reflexivity|].
  intros H. apply orb_false_iff in H as [H1 H2]. rewrite H1.
  now rewrite IH.
Qed.

Lemma key_match_refl (key : float_obj) : key_match key key = true.
Proof. unfold key_match. now rewrite Nat.eqb_refl. Qed.

Lemma dict_get_last (d : dict) (key : float_obj) x :
  dict_contains d key = false -> dict_get (d ++ [(key, x)]) key = Some x.
Proof.
  unfold dict_contains.
  induction d as [|[k b] d IH]; simpl.
  - now rewrite key_match_refl.
  - intros H. apply orb_false_iff in H as [H1 H2]. rewrite H1. auto.
Qed.

Lemma dict_set_last (d : dict) (key : float_obj) x y :
  dict_contains d key = false ->
  dict_set (d ++ [(key, x)]) key y = d ++ [(key, y)].
Proof.
  unfold dict_contains.
  induction d as [|[k b] d IH]; simpl.
  - now rewrite key_match_refl.
  - intros H. apply orb_false_iff in H as [H1 H2]. rewrite H1.
    now rewrite IH.
Qed.

(** One iteration of [_build_index] never raises: it extends the bucket of
    the key, which is the empty one when the key is new. *)
Lemma index_step_eq (d : dict) (rv : ResultValue) :
  index_step d rv =
  let key := round_obj d (value rv) in
  Ok (dict_set d key (bucket_or_empty (dict_get d key) ++ [rv])).
Proof.
  unfold index_step. cbv zeta.
  set (key := round_obj d (value rv)).
  destruct (dict_contains d key) eqn:Hc; simpl negb; cbv iota.
  - destruct (dict_get_present _ _ Hc) as [b Hb].
    unfold dict_getitem. rewrite Hb. reflexivity.
  - rewrite (dict_set_absent _ _ _ Hc).
    unfold dict_getitem. rewrite (dict_get_last _ _ _ Hc). simpl bind.
    rewrite (dict_set_last _ _ _ _ Hc).
    rewrite (dict_get_absent _ _ Hc). simpl.
    now rewrite (dict_set_absent _ _ _ Hc).
Qed.

Lemma lookup_dict_set (d : dict) (key : float_obj) x (v : float) :
  fresh_for d key ->
  lookup (dict_set d key x) v =
  if (fval key =? v)%float then Some x else lookup d v.
Proof.
  induction d as [|[k b] d IH]; intros Hf; simpl; [reflexivity|].
  rewrite (key_match_fresh_head d key k b Hf).
  simpl fst.
  destruct (fval k =? fval key)%float eqn:Hk; simpl.
  - rewrite (eqb_congr _ _ v Hk).
    destruct (fval key =? v)%float; reflexivity.
  - rewrite IH by (eapply fresh_for_tail; eassumption).
    destruct (fval k =? v)%float eqn:Hkv; [|reflexivity].
    destruct (fval key =? v)%float eqn:Hv; [|reflexivity].
    rewrite (eqb_congr_r _ _ (fval k) Hv) in Hk. congruence.
Qed.

Lemma keys_dict_set (d : dict) (key : float_obj) x :
  fresh_for d key ->
  keys (dict_set d key x) = keys d \/
  (keys (dict_set d key x) = keys d ++ [fval key] /\
   forall k, In k (keys d) -> (k =? fval key)%float = false).
Proof.
  induction d as [|[k b] d IH]; intros Hf; simpl.
  - right. split; [reflexivity | tauto].
  - rewrite (key_match_fresh_head d key k b Hf).
    simpl fst. destruct (fval k =? fval key)%float eqn:Hk; simpl.
    + now left.
    + destruct IH as [IH|[IH1 IH2]];
        [eapply fresh_for_tail; eassumption| |].
      * left. unfold keys in *. simpl. now rewrite IH.
      * right. split.
        -- unfold keys in *. simpl. now rewrite IH1.
        -- intros k' [<-|Hk']; auto.
Qed.

Lemma uniq_snoc (ks : list float) (v : float) :
  uniq ks -> (forall k, In k ks -> (k =? v)%float = false) -> uniq (ks ++ [v]).
Proof.
  induction ks as [|k ks IH]; simpl; [tauto|].
  intros [H1 H2] Hv. split.
  - intros k' Hk'. apply in_app_or in Hk' as [Hk'|[<-|[]]]; auto.
  - apply IH; auto.
Qed.

Lemma uniq_dict_set (d : dict) (key : float_obj) x :
  fresh_for d key -> uniq (keys d) -> uniq (keys (dict_set d key x)).
Proof.
  intros Hf Hu.
  destruct (keys_dict_set d key x Hf) as [->|[-> Hno]]; [assumption|].
  now apply uniq_snoc.
Qed.

Lemma lookup_in_uniq (d : dict) k b (v : float) :
  uniq (keys d) -> In (k, b) d -> (fval k =? v)%float = true ->
  lookup d v = Some b.
Proof.
  induction d as [|[k0 b0] d IH]; simpl; [tauto|].
  intros [Hh Ht] [Heq|Hin] Hv.
  - injection Heq as -> ->. now rewrite Hv.
  - destruct (fval k0 =? v)%float eqn:H0; [|auto].
    exfalso.
    assert (Hk : In (fval k) (keys d))
      by (unfold keys; apply in_map_iff; exists (k, b); auto).
    apply Hh in Hk.
    rewrite (eqb_congr _ _ (fval k) H0), eqb_sym, Hv in Hk. discriminate.
Qed.

Lemma lookup_none (d : dict) (v : float) :
  (forall k b, In (k, b) d -> (fval k =? v)%float = false) ->
  lookup d v = None.
Proof.
  induction d as [|[k0 b0] d IH]; simpl; [reflexivity|].
  intros H. rewrite (H k0 b0) by auto. apply IH. intros; eapply H; eauto.
Qed.

(** What is in a bucket stays in the bucket of the same key object. *)
Lemma dict_set_keeps (d : dict) (key : float_obj) (rv : ResultValue) k b :
  In (k, b) d ->
  exists b',
    In (k, b')
       (dict_set d key (bucket_or_empty (dict_get d key) ++ [rv])) /\
    incl b b'.
Proof.
  induction d as [|[k0 b0] d IH]; simpl; [tauto|].
  destruct (key_match k0 key) eqn:Hm; simpl.
  - intros [Heq|Hin].
    + injection Heq as -> ->. exists (b ++ [rv]). split; [now left|].
      apply incl_appl, incl_refl.
    + exists b. split; [now right | apply incl_refl].
  - intros [Heq|Hin].
    + injection Heq as -> ->. exists b. split; [now left | apply incl_refl].
    + destruct (IH Hin) as (b' & H1 & H2). exists b'. split; [now right|auto].
Qed.

(** The value stored is found under the key object or under an equal one. *)
Lemma dict_set_has (d : dict) (key : float_obj) x :
  exists k, In (k, x) (dict_set d key x) /\
            (k = key \/ (In (k, bucket_or_empty (dict_get d key)) d /\
                         key_match k key = true)).
Proof.
  induction d as [|[k0 b0] d IH]; simpl.
  - exists key. auto.
  - destruct (key_match k0 key) eqn:Hm; simpl.
    + exists k0. split; [now left|]. right. auto.
    + destruct IH as (k & H1 & H2). exists k. split; [now right|].
      destruct H2 as [->|[H2 H3]]; auto.
Qed.

Lemma indexed_nil : indexed [] [].
Proof. split; simpl; auto. intros rv []. Qed.

Lemma indexed_step (d : dict) (done : list ResultValue) (rv : ResultValue) :
  indexed d done ->
  let key := round_obj d (value rv) in
  indexed (dict_set d key (bucket_or_empty (dict_get d key) ++ [rv]))
          (done ++ [rv]).
Proof.
  intros [Hl Hm Hu] key.
  assert (Hf : fresh_for d key) by apply round_obj_fresh.
  split.
  - intros v. rewrite (lookup_dict_set d key _ v Hf).
    unfold rounded_to. rewrite filter_app. simpl.
    change (fval key) with (PyFloat.round6 (value rv)).
    destruct (PyFloat.round6 (value rv) =? v)%float eqn:Hv; simpl.
    + rewrite (dict_get_fresh d key Hf), Hl. f_equal.
      unfold rounded_to. apply filter_ext. intros a.
      change (fval key) with (PyFloat.round6 (value rv)).
      now apply eqb_congr_r.
    + rewrite app_nil_r. apply Hl.
  - intros rv' Hin. apply in_app_or in Hin as [Hin|[<-|[]]].
    + destruct (Hm _ Hin) as (k & b & H1 & H2 & H3).
      destruct (dict_set_keeps d key rv _ _ H1) as (b' & H4 & H5).
      exists k, b'. auto.
    + destruct (dict_set_has d key (bucket_or_empty (dict_get d key) ++ [rv]))
        as (k & H1 & H2).
      exists k, (bucket_or_empty (dict_get d key) ++ [rv]).
      split; [assumption|]. split.
      * destruct H2 as [->|[H2 H3]]; [now left|]. right.
        rewrite <- H3. symmetry. exact (key_match_fresh d key _ Hf H2).
      * apply in_or_app. right. now left.
  - now apply uniq_dict_set.
Qed.

Lemma build_loop (rest done : list ResultValue) (d : dict) :
  indexed d done ->
  exists d', for_each rest index_step d = Ok d' /\ indexed d' (done ++ rest).
Proof.
  revert done d. induction rest as [|rv rest IH]; intros done d Hi; simpl.
  - exists d. now rewrite app_nil_r.
  - rewrite index_step_eq. cbv zeta. simpl bind.
    destruct (IH (done ++ [rv]) _ (indexed_step d done rv Hi)) as (d' & H1 & H2).
    exists d'. split; [assumption|]. now rewrite <- app_assoc in H2.
Qed.

Lemma find_exact_lookup (self : ResultMatcher) (V : float) :
  find_exact self V =
  bucket_or_empty (lookup (index self) (PyFloat.round6 V)).
Proof.
  unfold find_exact. rewrite (dict_get_fresh _ _ (round_obj_fresh _ _)).
  reflexivity.
Qed.

(** C5. [_build_index] never raises and leaves [self.values] as it is;
    every observation is in a bucket whose key is its value rounded to 6
    digits; a bucket holds the observations of its key in the order of
    [self.values]; [find_exact(V)] is the bucket whose key is [round(V, 6)],
    and the empty list when there is none; building the index again gives
    the same index. *)
Theorem build_index_invariant (self : ResultMatcher) :
  exists self',
    _build_index self = Ok self' /\
    values self' = values self /\
    (forall rv, In rv (values self) ->
       exists k b, In (k, b) (index self') /\
         (fval k = PyFloat.round6 (value rv) \/
          (fval k =? PyFloat.round6 (value rv))%float = true) /\
         In rv b) /\
    (forall k b, In (k, b) (index self') -> (fval k =? fval k)%float = true ->
       b = filter (fun rv => (PyFloat.round6 (value rv) =? fval k)%float)
             (values self)) /\
    (forall V,
       find_exact self' V =
       filter
         (fun rv => (PyFloat.round6 (value rv) =? PyFloat.round6 V)%float)
         (values self)) /\
    (forall V k b, In (k, b) (index self') ->
       (fval k =? PyFloat.round6 V)%float = true -> find_exact self' V = b) /\
    (forall V,
       (forall k b, In (k, b) (index self') ->
          (fval k =? PyFloat.round6 V)%float = false) ->
       find_exact self' V = []) /\
    _build_index self' = Ok self'.
Proof.
  destruct (build_loop (values self) [] [] indexed_nil) as (d' & Hd & [Hl Hm Hu]).
  simpl in Hl, Hm.
  exists {| values := values self; index := d' |}.
  unfold _build_index. rewrite Hd. simpl.
  split; [reflexivity|]. split; [reflexivity|].
  split; [exact Hm|]. split; [|split; [|split; [|split]]].
  - intros k b Hin Hk.
    pose proof (lookup_in_uniq _ _ _ _ Hu Hin Hk) as H.
    specialize (Hl (fval k)). rewrite H in Hl. exact Hl.
  - intros V. rewrite find_exact_lookup. apply Hl.
  - intros V k b Hin Hk. rewrite find_exact_lookup. simpl.
    now rewrite (lookup_in_uniq _ _ _ _ Hu Hin Hk).
  - intros V Hno. rewrite find_exact_lookup. simpl.
    now rewrite (lookup_none _ _ Hno).
  - rewrite Hd. reflexivity.
Qed.

End IndexFacts.

(** ** The choice among several candidates *)

Module SelectFacts.

Import PyStr Parser Matcher Validator ScoreNotions Samples.

(** The score the code accumulates is the additive score. *)
Lemma score_of_additive (c : Claim) (m : ResultValue) :
  score_of c m = additive_score c m.
Proof.
  unfold score_of, additive_score, metric_equal, model_overlap,
    metric_in_path, present, text.
  destruct (metric_hint c) as [h|], (metric m) as [mt|],
    (model_hint c) as [mh|], (model m) as [mm|]; simpl;
    repeat match goal with
      | |- context [truthy ?s] => destruct (truthy s); simpl
      | |- context [eqb ?a ?b] => destruct (eqb a b); simpl
      | |- context [contains ?a ?b] => destruct (contains a b); simpl
      end; reflexivity.
Qed.

Lemma sort_desc_head (x : Z * ResultValue) (l : list (Z * ResultValue)) :
  hd_error (sort_desc (x :: l)) =
  match hd_error (sort_desc l) with
  | Some y => if (fst y <=? fst x)%Z then Some x else Some y
  | None => Some x
  end.
Proof.
  simpl. destruct (sort_desc l) as [|y l']; simpl; [reflexivity|].
  destruct (fst y <=? fst x)%Z; reflexivity.
Qed.

(** The head of the sorted list is the first element of greatest score. *)
Lemma sort_desc_first_max (f : ResultValue -> Z) (ms : list ResultValue) :
  ms <> [] ->
  exists pre best post,
    ms = pre ++ best :: post /\
    hd_error (sort_desc (map (fun m => (f m, m)) ms)) = Some (f best, best) /\
    (forall m, In m pre -> (f m < f best)%Z) /\
    (forall m, In m post -> (f m <= f best)%Z).
Proof.
  induction ms as [|x ms IH]; [congruence|]. intros _.
  destruct ms as [|y ms].
  - exists [], x, []. simpl. repeat split; intros m [].
  - destruct IH as (pre & best & post & E & H & Hpre & Hpost); [discriminate|].
    change (map (fun m => (f m, m)) (x :: y :: ms))
      with ((f x, x) :: map (fun m => (f m, m)) (y :: ms)).
    rewrite sort_desc_head, H. simpl fst.
    destruct (f best <=? f x)%Z eqn:Hle.
    + apply Z.leb_le in Hle.
      exists [], x, (y :: ms). split; [reflexivity|]. split; [reflexivity|].
      split; [intros m []|].
      intros m Hm. rewrite E in Hm.
      apply in_app_or in Hm as [Hm|[<-|Hm]].
      * specialize (Hpre _ Hm). lia.
      * assumption.
      * specialize (Hpost _ Hm). lia.
    + apply Z.leb_gt in Hle.
      exists (x :: pre), best, post. rewrite E.
      split; [reflexivity|]. split; [reflexivity|].
      split; [|assumption].
      intros m [<-|Hm]; auto.
Qed.

Lemma select_best_match_first_max (c : Claim) (ms : list ResultValue) :
  ms <> [] ->
  exists pre best post,
    ms = pre ++ best :: post /\
    _select_best_match c ms = Ok best /\
    (forall m, In m pre -> (additive_score c m < additive_score c best)%Z) /\
    (forall m, In m post ->
               (additive_score c m <= additive_score c best)%Z).
Proof.
  intros Hne.
  destruct (sort_desc_first_max (score_of c) ms Hne)
    as (pre & best & post & E & H & Hpre & Hpost).
  exists pre, best, post.
  split; [assumption|]. split.
  - unfold _select_best_match.
    destruct (sort_desc (map (fun m => (score_of c m, m)) ms))
      as [|b l] eqn:Hs; simpl in H; [discriminate|].
    injection H as ->.
    destruct ms as [|m1 [|m2 ms]].
    + now elim Hne.
    + simpl in Hs. inversion Hs. reflexivity.
    + reflexivity.
  - split; intros m Hm; rewrite <- !score_of_additive; auto.
Qed.

Lemma select_best_match_in (c : Claim) (ms : list ResultValue) :
  ms <> [] -> exists best, _select_best_match c ms = Ok best /\ In best ms.
Proof.
  intros Hne.
  destruct (select_best_match_first_max c ms Hne)
    as (pre & best & post & E & H & _).
  exists best. split; [assumption|].
  rewrite E. apply in_or_app. right. now left.
Qed.

Lemma select_pair (c : Claim) (a b : ResultValue) :
  _select_best_match c [a; b] =
  Ok (if (additive_score c b <=? additive_score c a)%Z then a else b).
Proof.
  unfold _select_best_match. simpl. rewrite !score_of_additive.
  destruct (additive_score c b <=? additive_score c a)%Z; reflexivity.
Qed.

(** C6, as amended.  [_select_best_match] returns the only element of a
    singleton list; on a list that is not empty it returns the first
    candidate of greatest additive score (+10 on the metric, +10 on the
    model, +5 on the path, a hint or attribute being present when it is a
    string that is not empty); of two candidates of which one only has the
    metric of the claim, that one is chosen in either order as long as the
    other does not earn the model bonus alone. *)
Theorem select_best_match_max_score :
  (forall c m, _select_best_match c [m] = Ok m) /\
  (forall c ms, ms <> [] ->
     exists pre best post,
       ms = pre ++ best :: post /\
       _select_best_match c ms = Ok best /\
       (forall m, In m pre ->
                  (additive_score c m < additive_score c best)%Z) /\
       (forall m, In m post ->
                  (additive_score c m <= additive_score c best)%Z)) /\
  (forall c a b,
     metric_equal c a = true -> metric_equal c b = false ->
     (model_overlap c b = true -> model_overlap c a = true) ->
     _select_best_match c [a; b] = Ok a /\
     _select_best_match c [b; a] = Ok a).
Proof.
  split; [reflexivity|]. split; [exact select_best_match_first_max|].
  intros c a b Ha Hb Hm. rewrite !select_pair.
  assert (additive_score c b < additive_score c a)%Z as Hlt.
  { unfold additive_score. rewrite Ha, Hb.
    destruct (model_overlap c b); [rewrite Hm by reflexivity|];
      destruct (model_overlap c a), (metric_in_path c a),
        (metric_in_path c b); lia. }
  split.
  - apply Z.lt_le_incl, Z.leb_le in Hlt. now rewrite Hlt.
  - apply Z.leb_gt in Hlt. now rewrite Hlt.
Qed.

(** Two candidates of which [with_metric] alone has the metric of the
    claim: the one chosen is the one that comes first.  And a hint that is
    the empty string earns nothing, where the score as stated has 15. *)
Lemma select_best_match_order_matters :
  metric_equal xgboost_mae_claim with_metric = true /\
  metric_equal xgboost_mae_claim with_model = false /\
  _select_best_match xgboost_mae_claim [with_metric; with_model]
    = Ok with_metric /\
  _select_best_match xgboost_mae_claim [with_model; with_metric]
    = Ok with_model /\
  with_model <> with_metric /\
  additive_score_as_stated empty_hint_claim metric_empty = 15%Z /\
  additive_score_as_stated empty_hint_claim metric_named = 5%Z /\
  _select_best_match empty_hint_claim [metric_named; metric_empty]
    = Ok metric_named.
Proof.
  repeat split; try reflexivity. discriminate.
Qed.

End SelectFacts.

(** ** The three-tier ladder *)

Module LadderFacts.

Import PyStr Parser Matcher Validator Notions Samples.
Import FloatFacts MatcherFacts SelectFacts.

Lemma diff_pct_of_nonzero (best : ResultValue) (c : Claim) :
  (Matcher.value best =? 0)%float = false ->
  diff_pct_of best c =
  Ok (abs (Matcher.value best - Parser.value c) / abs (Matcher.value best)
      * 100)%float.
Proof.
  intros H. unfold diff_pct_of, PyFloat.truediv.
  rewrite abs_eqb_zero, H. reflexivity.
Qed.

Lemma find_matches_nonzero (self : ResultMatcher) (V T : float)
  (l : list ResultValue) (o : ResultValue) :
  find_matches self V T = Ok l -> In o l ->
  (Matcher.value o =? 0)%float = false.
Proof.
  rewrite find_matches_filter. intros H Hin. injection H as <-.
  apply filter_In in Hin as [_ Hin].
  apply andb_true_iff in Hin as [Hin _].
  now apply negb_true_iff in Hin.
Qed.

(** The result of a tier whose candidates [l] came from [find_matches]. *)
Lemma fuzzy_tier (self : ResultMatcher) (V T : float) (c : Claim)
  (l : list ResultValue) :
  find_matches self V T = Ok l -> l <> [] ->
  exists best,
    _select_best_match c l = Ok best /\ In best l /\
    diff_pct_of best c =
    Ok (abs (Matcher.value best - Parser.value c) / abs (Matcher.value best)
        * 100)%float.
Proof.
  intros Hf Hne.
  destruct (select_best_match_in c l Hne) as (best & Hs & Hin).
  exists best. split; [assumption|]. split; [assumption|].
  apply diff_pct_of_nonzero. eapply find_matches_nonzero; eassumption.
Qed.

(** C1. [verify_claim] never raises and stops at the first tier that has a
    candidate: [find_exact] gives EXACT_MATCH with a difference of 0;
    else [find_matches] at the configured tolerance gives CLOSE_MATCH; else
    [find_matches] at 10.0 gives MISMATCH; else the result is UNVERIFIED
    with no matched value and no difference. *)
Theorem verify_claim_ladder (self : Validator) (c : Claim) :
  exists close wide r,
    find_matches (matcher self) (Parser.value c) (tolerance_pct self)
      = Ok close /\
    find_matches (matcher self) (Parser.value c) 10 = Ok wide /\
    verify_claim self c = Ok r /\
    claim r = c /\
    (find_exact (matcher self) (Parser.value c) <> [] ->
       status r = EXACT_MATCH /\ difference_pct r = Some 0%float /\
       exists best, matched_value r = Some best /\
         In best (find_exact (matcher self) (Parser.value c))) /\
    (find_exact (matcher self) (Parser.value c) = [] -> close <> [] ->
       status r = CLOSE_MATCH /\
       exists best, matched_value r = Some best /\ In best close) /\
    (find_exact (matcher self) (Parser.value c) = [] -> close = [] ->
     wide <> [] ->
       status r = MISMATCH /\
       exists best, matched_value r = Some best /\ In best wide) /\
    (find_exact (matcher self) (Parser.value c) = [] -> close = [] ->
     wide = [] ->
       status r = UNVERIFIED /\ matched_value r = None /\
       difference_pct r = None).
Proof.
  destruct (find_matches (matcher self) (Parser.value c) (tolerance_pct self))
    as [close|] eqn:Hc; [|rewrite find_matches_filter in Hc; discriminate].
  destruct (find_matches (matcher self) (Parser.value c) 10)
    as [wide|] eqn:Hw; [|rewrite find_matches_filter in Hw; discriminate].
  exists close, wide. unfold verify_claim. rewrite Hc, Hw.
  destruct (find_exact (matcher self) (Parser.value c)) as [|e es] eqn:He.
  - simpl bind. destruct close as [|x xs].
    + simpl bind. destruct wide as [|y ys].
      * eexists. split; [reflexivity|]. split; [reflexivity|].
        split; [reflexivity|]. simpl.
        split; [reflexivity|]. repeat split; congruence.
      * destruct (fuzzy_tier (matcher self) (Parser.value c) 10 c (y :: ys))
          as (best & Hs & Hin & Hd); [exact Hw | discriminate |].
        rewrite Hs. simpl bind. rewrite Hd. simpl bind.
        eexists. split; [reflexivity|]. split; [reflexivity|].
        split; [reflexivity|]. simpl.
        split; [reflexivity|].
        split; [congruence|]. split; [congruence|].
        split; [|congruence]. intros _ _ _. split; [reflexivity|].
        exists best. auto.
    + destruct (fuzzy_tier (matcher self) (Parser.value c)
                  (tolerance_pct self) c (x :: xs))
        as (best & Hs & Hin & Hd); [exact Hc | discriminate |].
      rewrite Hs. simpl bind. rewrite Hd. simpl bind.
      eexists. split; [reflexivity|]. split; [reflexivity|].
      split; [reflexivity|]. simpl.
      split; [reflexivity|].
      split; [congruence|]. split; [|split; congruence].
      intros _ _. split; [reflexivity|]. exists best. auto.
  - destruct (select_best_match_in c (e :: es)) as (best & Hs & Hin);
      [discriminate|].
    rewrite Hs. simpl bind.
    eexists. split; [reflexivity|]. split; [reflexivity|].
    split; [reflexivity|]. simpl.
    split; [reflexivity|].
    split; [|repeat split; congruence].
    intros _. split; [reflexivity|]. split; [reflexivity|].
    exists best. auto.
Qed.

(** C2, as amended.  In a result whose status is CLOSE_MATCH or MISMATCH
    the difference is
    [abs(matched.value - claim.value) / abs(matched.value) * 100], the
    divisor being the matched value.  For the claim 2.10 and the observation
    2.50, which a configured tolerance of 20 matches, the binary64 result is
    15.999999999999998. *)
Theorem difference_pct_formula :
  (forall self c r,
     verify_claim self c = Ok r ->
     status r = CLOSE_MATCH \/ status r = MISMATCH ->
     exists m,
       matched_value r = Some m /\
       difference_pct r =
       Some (abs (Matcher.value m - Parser.value c) / abs (Matcher.value m)
             * 100)%float) /\
  (exists r,
     verify_claim (validator_of [mae_2_50] 20) claim_2_10 = Ok r /\
     status r = CLOSE_MATCH /\
     matched_value r = Some mae_2_50 /\
     difference_pct r = Some 15.999999999999998%float).
Proof.
  split.
  - intros self c r. unfold verify_claim.
    destruct (find_exact (matcher self) (Parser.value c)) as [|e es].
    + destruct (find_matches (matcher self) (Parser.value c)
                  (tolerance_pct self)) as [close|] eqn:Hc;
        [|discriminate].
      simpl bind. destruct close as [|x xs].
      * destruct (find_matches (matcher self) (Parser.value c) 10)
          as [wide|] eqn:Hw; [|discriminate].
        simpl bind. destruct wide as [|y ys].
        -- intros H. injection H as <-. simpl. intros [?|?]; discriminate.
        -- destruct (fuzzy_tier (matcher self) (Parser.value c) 10 c
                       (y :: ys))
             as (best & Hs & Hin & Hd); [exact Hw | discriminate |].
           rewrite Hs. simpl bind. rewrite Hd. simpl bind.
           intros H. injection H as <-. simpl. intros _.
           exists best. auto.
      * destruct (fuzzy_tier (matcher self) (Parser.value c)
                    (tolerance_pct self) c (x :: xs))
          as (best & Hs & Hin & Hd); [exact Hc | discriminate |].
        rewrite Hs. simpl bind. rewrite Hd. simpl bind.
        intros H. injection H as <-. simpl. intros _.
        exists best. auto.
    + destruct (_select_best_match c (e :: es)); simpl bind;
        [|discriminate].
      intros H. injection H as <-. simpl. intros [?|?]; discriminate.
  - eexists. split; [vm_compute; reflexivity|].
    split; [reflexivity|]. split; reflexivity.
Qed.

(** An instance of the formula, on a close match. *)
Lemma difference_pct_formula_witness :
  exists m,
    Some mae_2_4404 = Some m /\
    Some 0.016390755613831996%float =
    Some (abs (Matcher.value m - 2.44) / abs (Matcher.value m) * 100)%float.
Proof.
  exact (proj1 difference_pct_formula
           (validator_of [mae_2_4404] 1)
           (claim_of 2.44 (Some (lit "mae")) None)
           {| claim := claim_of 2.44 (Some (lit "mae")) None;
              status := CLOSE_MATCH;
              matched_value := Some mae_2_4404;
              difference_pct := Some 0.016390755613831996%float;
              message :=
                CloseMatchIn 0.016390755613831996%float
                  (lit "results.json") |}
           eq_refl (or_introl eq_refl)).
Defined.

(** The claim 2.10 against the observation 2.50: matched under a tolerance
    of 20 the difference is not 16.0, and under the tolerance 1.0 nothing
    is matched, 16 % being outside the 10 % of the last tier. *)
Lemma difference_pct_2_10_against_2_50 :
  (exists r,
     verify_claim (validator_of [mae_2_50] 20) claim_2_10 = Ok r /\
     matched_value r = Some mae_2_50 /\
     difference_pct r = Some 15.999999999999998%float /\
     difference_pct r <> Some 16%float) /\
  (exists r,
     verify_claim (validator_of [mae_2_50] 1) claim_2_10 = Ok r /\
     status r = UNVERIFIED /\
     difference_pct r = None).
Proof.
  split.
  - eexists. split; [vm_compute; reflexivity|].
    split; [reflexivity|]. split; [reflexivity|].
    simpl. intros H.
    apply (f_equal (fun o => match o with
                             | Some x => (x =? 16)%float
                             | None => false
                             end)) in H.
    vm_compute in H. discriminate.
  - eexists. split; [vm_compute; reflexivity|]. split; reflexivity.
Qed.

End LadderFacts.

(** ** The token grammar *)

Module TokenFacts.

Import PyStr Parser TokenNotions.

Lemma span_split (p : ascii -> bool) (s a r : str) :
  span p s = (a, r) ->
  s = a ++ r /\ Forall (fun c => p c = true) a /\ r = skipn (List.length a) s.
Proof.
  revert a r. induction s as [|c s IH]; simpl; intros a r H.
  - injection H as <- <-. auto.
  - destruct (p c) eqn:Hc.
    + destruct (span p s) as [a' r'] eqn:E. injection H as <- <-.
      destruct (IH _ _ eq_refl) as (H1 & H2 & H3).
      simpl. split; [now rewrite <- H1|]. split; [|assumption].
      constructor; assumption.
    + injection H as <- <-. auto.
Qed.

Lemma skipn_length_app (a r : str) : skipn (List.length a) (a ++ r) = r.
Proof. induction a; simpl; auto. Qed.

Lemma firstn_length_app (a r : str) : firstn (List.length a) (a ++ r) = a.
Proof. induction a; simpl; [reflexivity | now f_equal]. Qed.

(** A match of the pattern is a match of the numeric part, and one more
    character when a suffix letter follows that no letter follows. *)
Lemma match_number_mantissa (s : str) :
  match_number s =
  match match_mantissa s with
  | Some k =>
      match skipn k s with
      | c :: r =>
          Some (if is_kmb c && lookahead_not_letter r then k + 1 else k)
      | [] => Some k
      end
  | None => None
  end.
Proof.
  unfold match_number, match_mantissa.
  destruct (span is_number_char s) as [a r1] eqn:Ea.
  destruct a as [|a0 a]; [reflexivity|].
  apply span_split in Ea as (Es & _ & _).
  set (dr := match r1 with
             | c :: r => if eqb_char c "." then (1, r) else (0, r1)
             | [] => (0, r1)
             end).
  assert (Hdr : r1 = firstn (fst dr) r1 ++ snd dr /\
                List.length (firstn (fst dr) r1) = fst dr).
  { unfold dr. destruct r1 as [|c r]; [auto|].
    destruct (eqb_char c "."); simpl; auto. }
  destruct dr as [dot r2]. simpl in Hdr. destruct Hdr as [Er1 Hlen].
  destruct (span is_digit r2) as [b r3] eqn:Eb.
  apply span_split in Eb as (Er2 & _ & _).
  assert (Hskip : skipn (List.length (a0 :: a) + dot + List.length b) s = r3).
  { replace (List.length (a0 :: a) + dot + List.length b)
      with (List.length (((a0 :: a) ++ firstn dot r1) ++ b))
      by (rewrite !length_app, Hlen; lia).
    rewrite Es. rewrite Er1 at 2. rewrite Er2.
    rewrite !app_assoc. apply skipn_length_app. }
  rewrite Hskip.
  destruct r3 as [|c r4]; [f_equal; lia|].
  destruct (is_kmb c && lookahead_not_letter r4); f_equal; lia.
Qed.

Lemma Forall_numeric_of_number (a : str) :
  Forall (fun c => is_number_char c = true) a ->
  Forall (fun c => is_numeric_char c = true) a.
Proof.
  apply Forall_impl. intros c. unfold is_number_char, is_numeric_char.
  intros H. apply orb_true_iff in H as [H|H]; rewrite H; simpl;
    [reflexivity | now rewrite orb_true_r].
Qed.

Lemma Forall_numeric_of_digit (a : str) :
  Forall (fun c => is_digit c = true) a ->
  Forall (fun c => is_numeric_char c = true) a.
Proof.
  apply Forall_impl. intros c. unfold is_numeric_char. now intros ->.
Qed.

(** The numeric part of a match: not empty, inside the text, and made of
    digits, commas and points. *)
Lemma mantissa_shape (t : str) (k : nat) :
  match_mantissa t = Some k ->
  0 < k <= List.length t /\
  Forall (fun c => is_numeric_char c = true) (firstn k t).
Proof.
  unfold match_mantissa.
  destruct (span is_number_char t) as [a r1] eqn:Ea.
  destruct a as [|a0 a]; [discriminate|].
  apply span_split in Ea as (Es & Ha & _).
  set (dr := match r1 with
             | c :: r => if eqb_char c "." then (1, r) else (0, r1)
             | [] => (0, r1)
             end).
  assert (Hdr : r1 = firstn (fst dr) r1 ++ snd dr /\
                List.length (firstn (fst dr) r1) = fst dr /\
                Forall (fun c => is_numeric_char c = true)
                  (firstn (fst dr) r1)).
  { unfold dr. destruct r1 as [|c r]; [simpl; auto|].
    destruct (eqb_char c ".") eqn:Hc; simpl; auto.
    repeat split; auto. constructor; [|constructor].
    unfold is_numeric_char. rewrite Hc. apply orb_true_r. }
  destruct dr as [dot r2]. simpl in Hdr. destruct Hdr as (Er1 & Hlen & Hd).
  destruct (span is_digit r2) as [b r3] eqn:Eb.
  apply span_split in Eb as (Er2 & Hb & _).
  intros H. injection H as <-.
  assert (Et : t = (((a0 :: a) ++ firstn dot r1) ++ b) ++ r3).
  { rewrite Es. rewrite Er1 at 1. rewrite Er2. now rewrite !app_assoc. }
  assert (Hk : List.length (a0 :: a) + dot + List.length b
               = List.length (((a0 :: a) ++ firstn dot r1) ++ b))
    by (rewrite !length_app, Hlen; lia).
  change (S (List.length a + dot + List.length b))
    with (List.length (a0 :: a) + dot + List.length b).
  rewrite Hk. split.
  - rewrite !length_app. simpl.
    assert (El : List.length t
                 = List.length ((((a0 :: a) ++ firstn dot r1) ++ b) ++ r3))
      by now rewrite <- Et.
    rewrite !length_app in El. simpl in El. lia.
  - rewrite Et, firstn_length_app.
    apply Forall_app. split; [apply Forall_app; split|].
    + now apply Forall_numeric_of_number.
    + assumption.
    + now apply Forall_numeric_of_digit.
Qed.

Lemma firstn_succ_skipn (t : str) (k : nat) (c : ascii) (r : str) :
  skipn k t = c :: r -> firstn (k + 1) t = firstn k t ++ [c].
Proof.
  revert t. induction k as [|k IH]; intros t; simpl.
  - intros ->. reflexivity.
  - destruct t as [|x t]; [discriminate|]. intros H. simpl.
    f_equal. auto.
Qed.

Lemma skipn_cons_length (t : str) (k : nat) (c : ascii) (r : str) :
  skipn k t = c :: r -> k < List.length t.
Proof.
  intros H. destruct (Nat.lt_ge_cases k (List.length t)) as [?|Hge]; auto.
  rewrite skipn_all2 in H by assumption. discriminate.
Qed.

(** The shape of a token: a numeric part that is not empty, made of
    digits, commas and points, and at most one suffix letter behind it. *)
Lemma numeric_token_shape (t : str) (n : nat) :
  match_number t = Some n ->
  exists num suf,
    firstn n t = num ++ suf /\
    num <> [] /\
    Forall (fun c => is_numeric_char c = true) num /\
    match_mantissa t = Some (List.length num) /\
    n = List.length num + List.length suf /\
    n <= List.length t /\
    (suf = [] \/
     exists c r, suf = [c] /\ is_kmb c = true /\
       skipn (List.length num) t = c :: r /\
       lookahead_not_letter r = true).
Proof.
  rewrite match_number_mantissa.
  destruct (match_mantissa t) as [k|] eqn:Hm; [|discriminate].
  destruct (mantissa_shape t k Hm) as ([Hk0 Hk] & Hnum).
  assert (Hlen : List.length (firstn k t) = k)
    by (rewrite length_firstn; lia).
  assert (Hne : firstn k t <> [])
    by (intros E; rewrite E in Hlen; simpl in Hlen; lia).
  destruct (skipn k t) as [|c r] eqn:Hs.
  - intros H. injection H as <-.
    exists (firstn k t), []. rewrite app_nil_r, Hlen. simpl.
    repeat split; auto; lia.
  - destruct (is_kmb c && lookahead_not_letter r) eqn:Hsuf;
      intros H; injection H as <-.
    + apply andb_true_iff in Hsuf as [Hc Hl].
      exists (firstn k t), [c]. rewrite Hlen. simpl.
      split; [now apply firstn_succ_skipn with (r := r)|].
      repeat split; auto.
      * apply skipn_cons_length in Hs. lia.
      * right. exists c, r. auto.
    + exists (firstn k t), []. rewrite app_nil_r, Hlen. simpl.
      repeat split; auto; lia.
Qed.

Lemma match_number_pos (t : str) (n : nat) : match_number t = Some n -> 0 < n.
Proof.
  intros H. apply numeric_token_shape in H
    as (num & suf & _ & Hne & _ & _ & -> & _).
  destruct num; [congruence | simpl; lia].
Qed.

(** [finditer] yields matches of the pattern, from left to right. *)
Lemma finditer_from_sound (s : str) (pos skip a b : nat) :
  In (a, b) (finditer_from s pos skip) ->
  pos + skip <= a /\ a < b /\
  match_number (skipn (a - pos) s) = Some (b - a).
Proof.
  revert pos skip. induction s as [|c s IH]; intros pos skip; simpl;
    [tauto|].
  destruct skip as [|k].
  - destruct (match_number (c :: s)) as [n|] eqn:Hm.
    + intros [H|H].
      * injection H as <- <-.
        pose proof (match_number_pos _ _ Hm).
        rewrite Nat.sub_diag. simpl skipn.
        replace (pos + n - pos) with n by lia.
        repeat split; auto; lia.
      * apply IH in H as (H1 & H2 & H3).
        replace (a - pos) with (S (a - S pos)) by lia.
        simpl. repeat split; auto; lia.
    + intros H. apply IH in H as (H1 & H2 & H3).
      replace (a - pos) with (S (a - S pos)) by lia.
      simpl. repeat split; auto; lia.
  - intros H. apply IH in H as (H1 & H2 & H3).
    replace (a - pos) with (S (a - S pos)) by lia.
    simpl. repeat split; auto; lia.
Qed.

Lemma finditer_sound (line : str) (s e : nat) :
  In (s, e) (finditer line) ->
  s < e <= List.length line /\
  match_number (skipn s line) = Some (e - s).
Proof.
  intros H. apply finditer_from_sound in H as (_ & H2 & H3).
  rewrite Nat.sub_0_r in H3. split; [|assumption].
  split; [assumption|].
  apply numeric_token_shape in H3 as (_ & _ & _ & _ & _ & _ & _ & Hle & _).
  rewrite length_skipn in Hle. lia.
Qed.

Lemma skipn_cons_nth (l : str) (n : nat) (c : ascii) (r : str) :
  skipn n l = c :: r -> nth_error l n = Some c /\ skipn (n + 1) l = r.
Proof.
  revert l. induction n as [|n IH]; intros l; simpl.
  - intros ->. auto.
  - destruct l as [|x l]; [discriminate|]. apply IH.
Qed.

Lemma skipn_nil_nth (l : str) (n : nat) :
  skipn n l = [] -> nth_error l n = None.
Proof.
  revert l. induction n as [|n IH]; intros l; simpl.
  - intros ->. reflexivity.
  - destruct l as [|x l]; [reflexivity|]. apply IH.
Qed.

(** C7, as amended.  In a token found by the extractor the numeric part
    [[\d,]+\.?\d*] is followed by at most one more character, and it is
    there exactly when the next character is k, m or b in either case and
    the character behind it, if any, is not a letter in either case. *)
Theorem suffix_attached_iff (line : str) (s e : nat) :
  In (s, e) (finditer line) ->
  exists k,
    match_mantissa (skipn s line) = Some k /\
    (e = s + k \/ e = s + k + 1) /\
    (e = s + k + 1 <->
     exists c,
       nth_error line (s + k) = Some c /\ is_kmb c = true /\
       forall d, nth_error line (s + k + 1) = Some d -> is_letter d = false).
Proof.
  intros H. apply finditer_sound in H as ([Hlt Hle] & Hm).
  rewrite match_number_mantissa in Hm.
  destruct (match_mantissa (skipn s line)) as [k|]; [|discriminate].
  exists k. split; [reflexivity|].
  rewrite skipn_skipn, (Nat.add_comm k s) in Hm.
  destruct (skipn (s + k) line) as [|c r] eqn:Hs.
  - apply skipn_nil_nth in Hs. injection Hm as Hm.
    split; [left; lia|]. split; [lia|].
    intros (c & Hc & _). congruence.
  - apply skipn_cons_nth in Hs as [Hc Hr].
    destruct (is_kmb c) eqn:Hk; simpl in Hm.
    + destruct r as [|d r']; simpl in Hm.
      * injection Hm as Hm. split; [right; lia|].
        split; [|lia]. intros _. exists c. repeat split; auto.
        intros d Hd. apply skipn_nil_nth in Hr. congruence.
      * apply skipn_cons_nth in Hr as [Hd _].
        destruct (is_letter d) eqn:Hl; simpl in Hm; injection Hm as Hm.
        -- split; [left; lia|]. split; [lia|].
           intros (c' & _ & _ & Hall). specialize (Hall d Hd). congruence.
        -- split; [right; lia|]. split; [|lia].
           intros _. exists c. repeat split; auto.
           intros d' Hd'. congruence.
    + injection Hm as Hm. split; [left; lia|]. split; [lia|].
      intros (c' & Hc' & Hk' & _). congruence.
Qed.

(** An instance: the K of [98.5K] before a space. *)
Lemma suffix_attached_iff_witness :
  exists k,
    match_mantissa (skipn 0 (lit "98.5K parameters")) = Some k /\
    (5 = 0 + k \/ 5 = 0 + k + 1) /\
    (5 = 0 + k + 1 <->
     exists c,
       nth_error (lit "98.5K parameters") (0 + k) = Some c /\
       is_kmb c = true /\
       forall d,
         nth_error (lit "98.5K parameters") (0 + k + 1) = Some d ->
         is_letter d = false).
Proof.
  apply (suffix_attached_iff (lit "98.5K parameters") 0 5).
  vm_compute. left. reflexivity.
Defined.

(** A suffix letter before an upper-case letter, which is no lower-case
    letter, is left out of the token all the same: [98.5KB] is read as
    98.5. *)
Lemma suffix_before_upper_case :
  finditer (lit "98.5KB") = [(0, 4)] /\
  nth_error (lit "98.5KB") 4 = Some "K"%char /\
  is_kmb "K" = true /\
  nth_error (lit "98.5KB") 5 = Some "B"%char /\
  is_lower "B" = false /\
  match_mantissa (lit "98.5KB") = Some 4.
Proof. repeat split; reflexivity. Qed.

End TokenFacts.

(** ** Reading a token as a number *)

Module NumberFacts.

Import PyStr Parser TokenNotions TokenFacts.

Ltac ascii_cases c := destruct c as [[] [] [] [] [] [] [] []].

Lemma kmb_not_numeric (c : ascii) :
  is_kmb c = true -> is_numeric_char c = false.
Proof. ascii_cases c; vm_compute; intros H; (discriminate H || reflexivity). Qed.

Lemma kmb_not_comma (c : ascii) : is_kmb c = true -> eqb_char "," c = false.
Proof. ascii_cases c; vm_compute; intros H; (discriminate H || reflexivity). Qed.

Lemma kmb_not_space (c : ascii) : is_kmb c = true -> is_space c = false.
Proof. ascii_cases c; vm_compute; intros H; (discriminate H || reflexivity). Qed.

Lemma numeric_not_space (c : ascii) :
  is_numeric_char c = true -> is_space c = false.
Proof. ascii_cases c; vm_compute; intros H; (discriminate H || reflexivity). Qed.

Lemma kmb_multiplier (c : ascii) :
  is_kmb c = true -> multipliers [lower_char c] = Some (magnitude c).
Proof. ascii_cases c; vm_compute; intros H; (discriminate H || reflexivity). Qed.

Lemma numeric_multiplier (c : ascii) :
  is_numeric_char c = true -> multipliers [lower_char c] = None.
Proof. ascii_cases c; vm_compute; intros H; (discriminate H || reflexivity). Qed.

Lemma lstrip_no_space (s : str) :
  Forall (fun c => is_space c = false) s -> lstrip s = s.
Proof.
  destruct s as [|c s]; [reflexivity|]. intros H.
  apply Forall_inv in H. simpl. now rewrite H.
Qed.

Lemma strip_no_space (s : str) :
  Forall (fun c => is_space c = false) s -> strip s = s.
Proof.
  intros H. unfold strip, rstrip. rewrite (lstrip_no_space s H).
  rewrite lstrip_no_space by now apply Forall_rev.
  apply rev_involutive.
Qed.

Lemma remove_char_keeps (c : ascii) (P : ascii -> Prop) (s : str) :
  Forall P s -> Forall P (remove_char c s).
Proof.
  intros H. apply Forall_forall. intros x Hx.
  apply filter_In in Hx as [Hx _]. revert x Hx. now apply Forall_forall.
Qed.

Lemma remove_char_app (c : ascii) (a b : str) :
  remove_char c (a ++ b) = remove_char c a ++ remove_char c b.
Proof. apply filter_app. Qed.

Lemma numeric_no_space (s : str) :
  Forall (fun c => is_numeric_char c = true) s ->
  Forall (fun c => is_space c = false) s.
Proof. apply Forall_impl. exact numeric_not_space. Qed.

Lemma float_of_str_raises (s : str) (e : exn) :
  PyFloat.float_of_str s = Raise e -> e = ValueError.
Proof.
  unfold PyFloat.float_of_str.
  destruct (span is_digit s) as [ip r].
  destruct r as [|c r'].
  - destruct (ip ++ []); [congruence | discriminate].
  - destruct (eqb_char c ".").
    + destruct (span is_digit r') as [fp r''].
      destruct r''; [|congruence].
      destruct (ip ++ fp); [congruence | discriminate].
    + congruence.
Qed.

(** [_parse_number] raises nothing but [ValueError]. *)
Lemma parse_number_raises (raw : str) (e : exn) :
  _parse_number raw = Raise e -> e = ValueError.
Proof.
  unfold _parse_number.
  destruct (multipliers _) as [mult|].
  - destruct (PyFloat.float_of_str _) eqn:E; simpl; [discriminate|].
    intros H. injection H as <-. eapply float_of_str_raises; eassumption.
  - apply float_of_str_raises.
Qed.

(** A token that ends with a suffix letter. *)
Lemma parse_number_suffix (num : str) (c : ascii) :
  Forall (fun x => is_numeric_char x = true) num ->
  is_kmb c = true ->
  _parse_number (num ++ [c]) =
  (x <- PyFloat.float_of_str (remove_char "," num) ;;
   Ok (x * magnitude c)%float).
Proof.
  intros Hnum Hc. unfold _parse_number.
  assert (Hclean : strip (remove_char "," (num ++ [c]))
                   = remove_char "," num ++ [c]).
  { rewrite remove_char_app.
    assert (E : remove_char "," [c] = [c])
      by (cbv beta iota delta [remove_char filter];
          now rewrite (kmb_not_comma c Hc)).
    rewrite E. apply strip_no_space. apply Forall_app. split.
    - apply remove_char_keeps. now apply numeric_no_space.
    - constructor; [now apply kmb_not_space | constructor]. }
  rewrite Hclean.
  destruct (remove_char "," num ++ [c]) as [|x l] eqn:E;
    [now destruct (remove_char "," num)|].
  rewrite <- E, last_last, removelast_last, (kmb_multiplier c Hc).
  reflexivity.
Qed.

(** A token without suffix letter. *)
Lemma parse_number_plain (num : str) :
  Forall (fun x => is_numeric_char x = true) num ->
  _parse_number num = PyFloat.float_of_str (remove_char "," num).
Proof.
  intros Hnum. unfold _parse_number.
  assert (Hn : Forall (fun x => is_numeric_char x = true)
                 (remove_char "," num)) by now apply remove_char_keeps.
  rewrite strip_no_space by now apply numeric_no_space.
  destruct (remove_char "," num) as [|x l] eqn:E; [reflexivity|].
  rewrite <- E in *.
  assert (Hl : is_numeric_char (last (remove_char "," num) " "%char) = true).
  { assert (Hne : remove_char "," num <> []) by (rewrite E; discriminate).
    destruct (exists_last Hne) as (l' & y & Ely).
    rewrite Ely in Hn |- *.
    rewrite last_last. apply Forall_app in Hn as [_ Hn].
    now apply Forall_inv in Hn. }
  now rewrite (numeric_multiplier _ Hl).
Qed.

(** C8. For a token found by the extractor, [_parse_number] drops the
    commas and, when the token ends with a suffix letter k, m or b in either
    case, reads what is before it and multiplies by 1e3, 1e6 or 1e9; without
    suffix it reads the token without its commas.  So [98.5K] is 98500.0,
    [3,102] is 3102.0 and [1.2M] is 1200000.0. *)
Theorem parse_number_token :
  (forall line s e,
     In (s, e) (finditer line) ->
     (forall body c,
        slice line s e = body ++ [c] -> is_kmb c = true ->
        _parse_number (slice line s e) =
        (x <- PyFloat.float_of_str (remove_char "," body) ;;
         Ok (x * magnitude c)%float)) /\
     ((forall body c, slice line s e = body ++ [c] -> is_kmb c = false) ->
      _parse_number (slice line s e) =
      PyFloat.float_of_str (remove_char "," (slice line s e)))) /\
  magnitude "k" = 1000%float /\
  magnitude "m" = 1000000%float /\
  magnitude "b" = 1000000000%float /\
  _parse_number (lit "98.5K") = Ok 98500%float /\
  _parse_number (lit "3,102") = Ok 3102%float /\
  _parse_number (lit "1.2M") = Ok 1200000%float.
Proof.
  split; [|repeat split; reflexivity].
  intros line s e H. apply finditer_sound in H as (_ & Hm).
  apply numeric_token_shape in Hm
    as (num & suf & Hraw & Hne & Hnum & _ & _ & _ & Hsuf).
  unfold slice. rewrite Hraw. split.
  - intros body c E Hc.
    destruct Hsuf as [->|(c' & r & -> & Hc' & _)].
    + rewrite app_nil_r in E. subst num.
      apply Forall_app in Hnum as [_ Hnum]. apply Forall_inv in Hnum.
      rewrite (kmb_not_numeric c Hc) in Hnum. discriminate.
    + apply app_inj_tail in E as [-> ->].
      now apply parse_number_suffix.
  - intros Hno.
    destruct Hsuf as [->|(c' & r & -> & Hc' & _)].
    + rewrite app_nil_r. now apply parse_number_plain.
    + rewrite (Hno num c' eq_refl) in Hc'. discriminate.
Qed.

(** An instance: the token of [Model has 98.5K parameters.] *)
Lemma parse_number_token_witness :
  _parse_number (slice (lit "Model has 98.5K parameters.") 10 15) =
  (x <- PyFloat.float_of_str (remove_char "," (lit "98.5")) ;;
   Ok (x * magnitude "K")%float).
Proof.
  apply (proj1 (proj1 parse_number_token
                  (lit "Model has 98.5K parameters.") 10 15
                  (or_introl eq_refl))
           (lit "98.5") "K"%char eq_refl eq_refl).
Defined.

End NumberFacts.

(** ** The claims of a line and of a document *)

Module ExtractFacts.

Import PyStr Parser TokenNotions TokenFacts NumberFacts.

Lemma Ok_inj {A : Type} (a b : A) : Ok a = Ok b -> a = b.
Proof.
  intros H.
  exact (f_equal (fun r => match r with Ok x => x | Raise _ => a end) H).
Qed.

(** A loop that only appends to its list, and never raises. *)
Lemma for_each_collect {A B : Type} (l : list A)
  (body : list B -> A -> py (list B)) (Q : A -> B -> Prop) :
  (forall acc x, In x l ->
     exists new, body acc x = Ok (acc ++ new) /\ forall y, In y new -> Q x y) ->
  forall acc,
    exists out,
      for_each l body acc = Ok (acc ++ out) /\
      forall y, In y out -> exists x, In x l /\ Q x y.
Proof.
  induction l as [|x l IH]; intros Hbody acc; simpl.
  - exists []. rewrite app_nil_r. split; [reflexivity | intros y []].
  - destruct (Hbody acc x (or_introl eq_refl)) as (new & Hx & Hnew).
    rewrite Hx. simpl bind.
    destruct (IH (fun acc x H => Hbody acc x (or_intror H)) (acc ++ new))
      as (out & Hout & Hq).
    exists (new ++ out). rewrite Hout, app_assoc. split; [reflexivity|].
    intros y Hy. apply in_app_or in Hy as [Hy|Hy].
    + exists x. split; [now left | auto].
    + destruct (Hq y Hy) as (x' & Hx' & Hy'). exists x'. split; [now right|auto].
Qed.

(** One match gives no claim or one, built from it. *)
Lemma extract_step_token (line : str) (n : nat) (acc : list Claim)
  (m : nat * nat) :
  exists new,
    extract_step line n acc m = Ok (acc ++ new) /\
    forall c, In c new -> from_token line n c (fst m) (snd m).
Proof.
  destruct m as [s e]. unfold extract_step.
  destruct ((List.length (slice line s e) <? 2)
            && negb (has_char "." (slice line s e))) eqn:Hshort.
  - exists []. rewrite app_nil_r. split; [reflexivity | intros c []].
  - destruct (_parse_number (slice line s e)) as [v|ex] eqn:Hp.
    + destruct ((v =? 0)%float || (1000000000 <? v)%float) eqn:Hv.
      * exists []. rewrite app_nil_r. split; [reflexivity | intros c []].
      * eexists [_]. split; [reflexivity|].
        intros c [<-|[]]. unfold from_token. simpl.
        apply orb_false_iff in Hv as [Hv0 Hv1].
        repeat split; auto.
        apply andb_false_iff in Hshort as [Hs|Hs].
        -- left. apply Nat.ltb_ge in Hs. exact Hs.
        -- right. now apply negb_false_iff in Hs.
    + rewrite (parse_number_raises _ _ Hp).
      exists []. rewrite app_nil_r. split; [reflexivity | intros c []].
Qed.

(** The claims of a line: [_extract_claims_from_line] never raises, and
    each claim is built from a match of the line. *)
Lemma extract_claims_tokens (line : str) (n : nat) :
  exists claims,
    _extract_claims_from_line line n = Ok claims /\
    forall c, In c claims ->
      exists s e, In (s, e) (finditer line) /\ from_token line n c s e.
Proof.
  unfold _extract_claims_from_line.
  destruct (for_each_collect (finditer line) (extract_step line n)
              (fun m c => from_token line n c (fst m) (snd m))
              (fun acc x _ => extract_step_token line n acc x) [])
    as (out & Hout & Hq).
  exists out. split; [exact Hout|].
  intros c Hc. destruct (Hq c Hc) as ([s e] & Hin & Hf).
  exists s, e. auto.
Qed.

(** C9. [_extract_claims_from_line] never raises, and every claim it
    returns comes from a token that has two characters at least or a point,
    and whose value is neither 0 nor above 1e9: no claim is made of a token
    that is noise.  The line [1] gives no claim. *)
Theorem noise_rejected :
  (forall line n,
     exists claims,
       _extract_claims_from_line line n = Ok claims /\
       (forall c, In c claims ->
          exists s e,
            In (s, e) (finditer line) /\
            raw_text c = slice line s e /\
            _parse_number (raw_text c) = Ok (value c) /\
            (2 <= List.length (raw_text c) \/
             has_char "." (raw_text c) = true) /\
            (value c =? 0)%float = false /\
            (1000000000 <? value c)%float = false) /\
       (forall s e,
          In (s, e) (finditer line) -> noise (slice line s e) ->
          forall c, In c claims -> raw_text c <> slice line s e)) /\
  (forall n, _extract_claims_from_line (lit "1") n = Ok []).
Proof.
  split; [|reflexivity].
  intros line n.
  destruct (extract_claims_tokens line n) as (claims & Hc & Hq).
  exists claims. split; [exact Hc|]. split.
  - intros c Hin.
    destruct (Hq c Hin) as (s & e & Hm & Hraw & Hp & _ & _ & _ & _ & Hl & H0 & H1).
    exists s, e. repeat split; auto.
  - intros s e _ Hnoise c Hin Heq.
    destruct (Hq c Hin)
      as (s' & e' & _ & _ & Hp & _ & _ & _ & _ & Hl & H0 & H1).
    rewrite <- Heq in Hnoise.
    destruct Hnoise as [[Hlen Hdot]|(v & Hv & Hbad)].
    + destruct Hl as [Hl|Hl]; [lia | congruence].
    + rewrite Hp in Hv. apply Ok_inj in Hv. subst v.
      destruct Hbad; congruence.
Qed.

(** The lines of a document hold no line feed. *)
Lemma split_no_sep (c : ascii) (s l : str) :
  In l (split c s) -> ~ In c l.
Proof.
  revert l. induction s as [|x s IH]; simpl; intros l.
  - intros [<-|[]] [].
  - unfold eqb_char. destruct (Ascii.eqb c x) eqn:Hx.
    + intros [<-|H]; [intros [] | now apply IH].
    + apply Ascii.eqb_neq in Hx.
      destruct (split c s) as [|l0 ls] eqn:Es.
      * intros [<-|[]] [E|[]]. congruence.
      * intros [<-|H].
        -- intros [E|H]; [congruence|]. revert H. apply IH. now left.
        -- apply IH. now right.
Qed.

Lemma enumerate_nth {A : Type} (l : list A) (k n : nat) (x : A) :
  In (n, x) (enumerate k l) -> k <= n /\ nth_error l (n - k) = Some x.
Proof.
  revert k. induction l as [|y l IH]; simpl; intros k; [tauto|].
  intros [H|H].
  - injection H as -> ->. rewrite Nat.sub_diag. auto.
  - apply IH in H as [H1 H2]. split; [lia|].
    replace (n - k) with (S (n - S k)) by lia. exact H2.
Qed.

Lemma firstn_add (l : str) (a b : nat) :
  firstn (a + b) l = firstn a l ++ firstn b (skipn a l).
Proof.
  revert l. induction a as [|a IH]; intros l; simpl; [reflexivity|].
  destruct l as [|x l]; simpl.
  - now rewrite firstn_nil.
  - now rewrite IH.
Qed.

(** [l[i:k]] is [l[i:j]] followed by [l[j:k]]. *)
Lemma slice_app (l : str) (i j k : nat) :
  i <= j -> j <= k -> slice l i k = slice l i j ++ slice l j k.
Proof.
  intros Hij Hjk. unfold slice.
  replace (k - i) with ((j - i) + (k - j)) by lia.
  rewrite firstn_add, skipn_skipn.
  replace (j - i + i) with j by lia. reflexivity.
Qed.

Lemma slice_length (l : str) (i j : nat) :
  List.length (slice l i j) = Nat.min (j - i) (List.length l - i).
Proof. unfold slice. now rewrite length_firstn, length_skipn. Qed.

(** [l] is [l[:i]], [l[i:j]] and [l[j:]]. *)
Lemma slice_middle (l : str) (i j : nat) :
  i <= j -> l = firstn i l ++ slice l i j ++ skipn j l.
Proof.
  intros Hij. unfold slice.
  rewrite <- (firstn_skipn i l) at 1. f_equal.
  rewrite <- (firstn_skipn (j - i) (skipn i l)) at 1. f_equal.
  rewrite skipn_skipn. f_equal. lia.
Qed.

(** One line gives the claims of its matches, or none when it is skipped. *)
Lemma parse_step_tokens (acc : list Claim) (x : nat * str) :
  exists new,
    parse_step acc x = Ok (acc ++ new) /\
    forall c, In c new ->
      exists s e,
        In (s, e) (finditer (snd x)) /\ from_token (snd x) (fst x) c s e.
Proof.
  destruct x as [n line]. unfold parse_step.
  destruct (startswith (lit "%") (strip line)).
  - exists []. rewrite app_nil_r. split; [reflexivity | intros c []].
  - destruct (_is_non_claim_line line).
    + exists []. rewrite app_nil_r. split; [reflexivity | intros c []].
    + destruct (extract_claims_tokens line n) as (claims & Hc & Hq).
      rewrite Hc. simpl bind. exists claims. auto.
Qed.

(** C10. [parse_content] never raises.  The context of a claim is the part
    of its own line from 50 characters before the token, or from the start
    of the line when there are fewer, to 50 characters after it, or to the
    end of the line; the line holds no line feed, so nothing of another line
    is in it; and both hints are computed from this context. *)
Theorem context_window (content : str) :
  exists claims,
    parse_content content = Ok claims /\
    forall c, In c claims ->
      exists line s e,
        1 <= line_number c /\
        nth_error (split "010" content) (line_number c - 1) = Some line /\
        ~ In "010"%char line /\
        In (s, e) (finditer line) /\
        raw_text c = slice line s e /\
        context c =
          slice line (s - 50) s ++ raw_text c
          ++ slice line e (Nat.min (List.length line) (e + 50)) /\
        List.length (slice line (s - 50) s) = Nat.min s 50 /\
        List.length (slice line e (Nat.min (List.length line) (e + 50)))
          = Nat.min (List.length line - e) 50 /\
        line =
          firstn (s - 50) line ++ context c
          ++ skipn (Nat.min (List.length line) (e + 50)) line /\
        metric_hint c = _identify_metric (context c) /\
        model_hint c = _identify_model (context c).
Proof.
  unfold parse_content.
  destruct (for_each_collect (enumerate 1 (split "010" content)) parse_step
              (fun x c =>
                 exists s e,
                   In (s, e) (finditer (snd x)) /\
                   from_token (snd x) (fst x) c s e)
              (fun acc x _ => parse_step_tokens acc x) [])
    as (out & Hout & Hq).
  exists out. split; [exact Hout|].
  intros c Hc.
  destruct (Hq c Hc)
    as ([n line] & Hin & s & e & Hm & Hraw & _ & Hn & Hctx & Hmet & Hmod & _).
  simpl in Hm, Hraw, Hn, Hctx.
  apply enumerate_nth in Hin as [Hn1 Hnth].
  pose proof (finditer_sound line s e Hm) as ([Hse Hel] & _).
  exists line, s, e. rewrite Hn.
  split; [assumption|]. split; [assumption|].
  split; [apply (split_no_sep "010" content), (nth_error_In _ _ Hnth)|].
  split; [assumption|]. split; [assumption|].
  split; [|split; [|split; [|split; [|split]]]].
  - rewrite Hctx, Hraw.
    rewrite (slice_app line (s - 50) s) by lia.
    rewrite (slice_app line s e) by lia. reflexivity.
  - rewrite slice_length. lia.
  - rewrite slice_length. lia.
  - rewrite Hctx. apply slice_middle. lia.
  - assumption.
  - assumption.
Qed.

End ExtractFacts.

(** ** A run over all claims *)

Module RunFacts.

Import PyStr Parser Matcher Validator Report Notions IndexNotions RunNotions.
Import FloatFacts MatcherFacts IndexFacts SelectFacts LadderFacts.

Close Scope float_scope.

(** The result of [verify_claim], by the candidates of the three tiers. *)
Lemma verify_claim_cases (self : Validator) (c : Claim) :
  exists r,
    verify_claim self c = Ok r /\ claim r = c /\
    status r =
      tier_status (find_exact (matcher self) (Parser.value c))
        (filter (within_tolerance (Parser.value c) (tolerance_pct self))
           (values (matcher self)))
        (filter (within_tolerance (Parser.value c) 10)
           (values (matcher self))) /\
    match status r with
    | EXACT_MATCH =>
        difference_pct r = Some 0%float /\
        exists best, matched_value r = Some best /\
          In best (find_exact (matcher self) (Parser.value c))
    | CLOSE_MATCH =>
        exists best, matched_value r = Some best /\
          difference_pct r = Some (relative_difference best c) /\
          within_tolerance (Parser.value c) (tolerance_pct self) best = true /\
          In best (values (matcher self))
    | MISMATCH =>
        exists best, matched_value r = Some best /\
          difference_pct r = Some (relative_difference best c) /\
          within_tolerance (Parser.value c) 10 best = true /\
          within_tolerance (Parser.value c) (tolerance_pct self) best = false /\
          In best (values (matcher self))
    | UNVERIFIED => matched_value r = None /\ difference_pct r = None
    end.
Proof.
  unfold verify_claim. rewrite !find_matches_filter.
  destruct (find_exact (matcher self) (Parser.value c)) as [|e es] eqn:He.
  - simpl bind.
    destruct (filter (within_tolerance (Parser.value c) (tolerance_pct self))
                (values (matcher self))) as [|x xs] eqn:Hc.
    + simpl bind.
      destruct (filter (within_tolerance (Parser.value c) 10)
                  (values (matcher self))) as [|y ys] eqn:Hw.
      * eexists. split; [reflexivity|]. simpl. auto.
      * destruct (fuzzy_tier (matcher self) (Parser.value c) 10 c (y :: ys))
          as (best & Hs & Hin & Hd);
          [rewrite find_matches_filter; now rewrite Hw | discriminate |].
        rewrite Hs. simpl bind. rewrite Hd. simpl bind.
        eexists. split; [reflexivity|]. simpl.
        split; [reflexivity|]. split; [reflexivity|].
        exists best. split; [reflexivity|]. split; [reflexivity|].
        rewrite <- Hw in Hin. apply filter_In in Hin as [Hin Hwt].
        split; [assumption|]. split; [|assumption].
        destruct (within_tolerance (Parser.value c) (tolerance_pct self) best)
          eqn:Ht; [|reflexivity].
        assert (In best []) as []. rewrite <- Hc. apply filter_In. auto.
    + destruct (fuzzy_tier (matcher self) (Parser.value c)
                  (tolerance_pct self) c (x :: xs))
        as (best & Hs & Hin & Hd);
        [rewrite find_matches_filter; now rewrite Hc | discriminate |].
      rewrite Hs. simpl bind. rewrite Hd. simpl bind.
      eexists. split; [reflexivity|]. simpl.
      split; [reflexivity|]. split; [reflexivity|].
      exists best. split; [reflexivity|]. split; [reflexivity|].
      rewrite <- Hc in Hin. apply filter_In in Hin as [Hin Hwt]. auto.
  - destruct (select_best_match_in c (e :: es)) as (best & Hs & Hin);
      [discriminate|].
    rewrite Hs. simpl bind.
    eexists. split; [reflexivity|]. simpl.
    split; [reflexivity|]. split; [reflexivity|].
    split; [reflexivity|]. exists best. auto.
Qed.

Lemma verify_all_loop (self : Validator) (claims : list Claim)
  (acc : list VerificationResult) :
  exists rs,
    for_each claims
      (fun results c => r <- verify_claim self c ;; Ok (results ++ [r])) acc
    = Ok (acc ++ rs) /\
    Forall2 (fun c r => verify_claim self c = Ok r) claims rs.
Proof.
  revert acc. induction claims as [|c claims IH]; intros acc; simpl.
  - exists []. rewrite app_nil_r. auto.
  - destruct (verify_claim_cases self c) as (r & Hr & _).
    rewrite Hr. simpl bind.
    destruct (IH (acc ++ [r])) as (rs & Hrs & Hall).
    exists (r :: rs). rewrite Hrs, <- app_assoc. auto.
Qed.

(** X1. [verify_paper], and [verify_all] under it, never raises: it returns
    one result for each claim, in the order of the claims, and each is what
    [verify_claim] returns for that claim on its own. *)
Theorem verify_paper_pointwise (claims : list Claim) (matcher : ResultMatcher)
  (tolerance_pct : float) :
  exists rs,
    verify_paper claims matcher tolerance_pct = Ok rs /\
    List.length rs = List.length claims /\
    map claim rs = claims /\
    Forall2
      (fun c r =>
         verify_claim
           {| Validator.matcher := matcher;
              Validator.tolerance_pct := tolerance_pct |} c = Ok r)
      claims rs.
Proof.
  unfold verify_paper, verify_all.
  destruct (verify_all_loop
              {| Validator.matcher := matcher;
                 Validator.tolerance_pct := tolerance_pct |} claims [])
    as (rs & Hrs & Hall).
  exists rs. split; [exact Hrs|].
  split; [symmetry; eapply Forall2_length; eassumption|].
  split; [|assumption].
  clear Hrs. induction Hall as [|c r cs rs' Hc Hall IH]; [reflexivity|].
  simpl. f_equal; [|assumption].
  destruct (verify_claim_cases
              {| Validator.matcher := matcher;
                 Validator.tolerance_pct := tolerance_pct |} c)
    as (r' & Hr' & Hcl & _).
  rewrite Hc in Hr'. apply ExtractFacts.Ok_inj in Hr'. now subst r'.
Qed.

Lemma SFleb_trans (a b c : spec_float) :
  SFleb a b = true -> SFleb b c = true -> SFleb a c = true.
Proof.
  unfold SFleb.
  destruct a as [sa|sa| |sa ma ea], b as [sb|sb| |sb mb eb],
    c as [sc|sc| |sc mc ec];
    try (destruct sa); try (destruct sb); try (destruct sc);
    try (simpl; congruence);
    rewrite ?SFcompare_finite_pos, ?SFcompare_finite_neg;
    intros H1 H2; lex_cases.
Qed.

Lemma leb_trans (a b c : float) :
  (a <=? b)%float = true -> (b <=? c)%float = true -> (a <=? c)%float = true.
Proof. rewrite !FloatAxioms.leb_spec. apply SFleb_trans. Qed.

Lemma within_tolerance_mono_le (V T1 T2 : float) (o : ResultValue) :
  (T1 <=? T2)%float = true ->
  within_tolerance V T1 o = true -> within_tolerance V T2 o = true.
Proof.
  unfold within_tolerance. intros HT H.
  apply andb_true_iff in H as [H0 H1]. rewrite H0. simpl.
  eapply leb_trans; eassumption.
Qed.

Lemma within_tolerance_spec (V T : float) (o : ResultValue) (c : Claim) :
  Parser.value c = V ->
  within_tolerance V T o =
  negb (Matcher.value o =? 0)%float && (relative_difference o c <=? T)%float.
Proof. intros <-. reflexivity. Qed.

(** X2. What a result carries, by its status: a matched value and a
    difference exactly when the status is not UNVERIFIED; on a CLOSE_MATCH
    a difference within the configured tolerance; on a MISMATCH a difference
    within 10 and not within the configured tolerance; in both, the matched
    value is an observation of the matcher, and is not 0. *)
Theorem result_payload (self : Validator) (c : Claim)
  (r : VerificationResult) :
  verify_claim self c = Ok r ->
  (status r = UNVERIFIED <-> matched_value r = None) /\
  (matched_value r = None <-> difference_pct r = None) /\
  (status r = CLOSE_MATCH ->
   exists best d,
     matched_value r = Some best /\ difference_pct r = Some d /\
     (d <=? tolerance_pct self)%float = true /\
     (Matcher.value best =? 0)%float = false /\
     In best (values (matcher self))) /\
  (status r = MISMATCH ->
   exists best d,
     matched_value r = Some best /\ difference_pct r = Some d /\
     (d <=? 10)%float = true /\
     (d <=? tolerance_pct self)%float = false /\
     (Matcher.value best =? 0)%float = false /\
     In best (values (matcher self))).
Proof.
  intros H.
  destruct (verify_claim_cases self c) as (r' & Hr' & _ & _ & Hcase).
  rewrite H in Hr'. apply ExtractFacts.Ok_inj in Hr'. subst r'.
  destruct (status r).
  - destruct Hcase as (Hd & best & Hb & _). rewrite Hb, Hd.
    repeat split; intros; discriminate.
  - destruct Hcase as (best & Hb & Hd & Hw & Hin). rewrite Hb, Hd.
    rewrite (within_tolerance_spec _ _ best c eq_refl) in Hw.
    apply andb_true_iff in Hw as [H0 H1]. apply negb_true_iff in H0.
    split; [split; discriminate|]. split; [split; discriminate|].
    split; [|discriminate].
    intros _. exists best, (relative_difference best c). auto.
  - destruct Hcase as (best & Hb & Hd & Hw & Ht & Hin). rewrite Hb, Hd.
    rewrite (within_tolerance_spec _ _ best c eq_refl) in Hw.
    rewrite (within_tolerance_spec _ _ best c eq_refl) in Ht.
    apply andb_true_iff in Hw as [H0 H1]. rewrite H0 in Ht. simpl in Ht.
    apply negb_true_iff in H0.
    split; [split; discriminate|]. split; [split; discriminate|].
    split; [discriminate|].
    intros _. exists best, (relative_difference best c).
    repeat split; auto.
  - destruct Hcase as (Hb & Hd). rewrite Hb, Hd.
    repeat split; auto; discriminate.
Qed.

(** An instance: the claim 2.44 against the observation 2.4404. *)
Lemma result_payload_witness :
  exists best d,
    Some Samples.mae_2_4404 = Some best /\
    Some 0.016390755613831996%float = Some d /\
    (d <=? 1)%float = true /\
    (Matcher.value best =? 0)%float = false /\
    In best [Samples.mae_2_4404].
Proof.
  exact (proj1 (proj2 (proj2
           (result_payload
              (Samples.validator_of [Samples.mae_2_4404] 1)
              (Samples.claim_of 2.44 (Some (lit "mae")) None)
              {| claim := Samples.claim_of 2.44 (Some (lit "mae")) None;
                 status := CLOSE_MATCH;
                 matched_value := Some Samples.mae_2_4404;
                 difference_pct := Some 0.016390755613831996%float;
                 message :=
                   CloseMatchIn 0.016390755613831996%float
                     (lit "results.json") |}
              eq_refl))) eq_refl).
Defined.

Lemma filter_nil_iff {A : Type} (P : A -> bool) (l : list A) :
  filter P l = [] <-> forall x, In x l -> P x = false.
Proof.
  split.
  - intros H x Hx. destruct (P x) eqn:Hp; [|reflexivity].
    assert (In x []) as []. rewrite <- H. apply filter_In. auto.
  - intros H. induction l as [|x l IH]; [reflexivity|]. simpl.
    rewrite (H x (or_introl eq_refl)). apply IH.
    intros y Hy. apply H. now right.
Qed.

Lemma filter_nil_same_elements {A : Type} (P : A -> bool) (l l' : list A) :
  (forall x, In x l <-> In x l') -> filter P l = [] -> filter P l' = [].
Proof.
  intros Hs H. apply filter_nil_iff. intros x Hx.
  apply (proj1 (filter_nil_iff P l) H). now apply Hs.
Qed.

Lemma tier_status_empty {A B : Type} (e c w : list A) (e' c' w' : list B) :
  (e = [] <-> e' = []) -> (c = [] <-> c' = []) -> (w = [] <-> w' = []) ->
  tier_status e c w = tier_status e' c' w'.
Proof.
  intros He Hc Hw.
  destruct e, e', c, c', w, w'; simpl; try reflexivity;
    (destruct He as [He1 He2]; destruct Hc as [Hc1 Hc2];
     destruct Hw as [Hw1 Hw2];
     try (specialize (He1 eq_refl); discriminate);
     try (specialize (He2 eq_refl); discriminate);
     try (specialize (Hc1 eq_refl); discriminate);
     try (specialize (Hc2 eq_refl); discriminate);
     try (specialize (Hw1 eq_refl); discriminate);
     try (specialize (Hw2 eq_refl); discriminate)).
Qed.

(** On a matcher whose index was built, [find_exact] is a filter of the
    observations. *)
Lemma find_exact_built (m b : ResultMatcher) (V : float) :
  _build_index m = Ok b ->
  values b = values m /\
  find_exact b V = rounded_to (PyFloat.round6 V) (values m).
Proof.
  unfold _build_index.
  destruct (build_loop (values m) [] [] indexed_nil) as (d' & Hd & [Hl _ _]).
  rewrite Hd. simpl. intros H. apply ExtractFacts.Ok_inj in H. subst b.
  split; [reflexivity|]. rewrite find_exact_lookup. simpl. apply Hl.
Qed.

(** X3. The status of a claim depends on which observations the matcher
    holds, not on their order nor on how many times each was ingested: two
    matchers with the same observations, their indexes built, give a claim
    the same status. *)
Theorem status_ignores_order_and_copies (m m' b b' : ResultMatcher)
  (tol : float) (c : Claim) (r r' : VerificationResult) :
  _build_index m = Ok b ->
  _build_index m' = Ok b' ->
  (forall o, In o (values m) <-> In o (values m')) ->
  verify_claim {| matcher := b; tolerance_pct := tol |} c = Ok r ->
  verify_claim {| matcher := b'; tolerance_pct := tol |} c = Ok r' ->
  status r = status r'.
Proof.
  intros Hb Hb' Hs Hr Hr'.
  destruct (find_exact_built m b (Parser.value c) Hb) as [Hv He].
  destruct (find_exact_built m' b' (Parser.value c) Hb') as [Hv' He'].
  destruct (verify_claim_cases {| matcher := b; tolerance_pct := tol |} c)
    as (x & Hx & _ & Hst & _).
  destruct (verify_claim_cases {| matcher := b'; tolerance_pct := tol |} c)
    as (x' & Hx' & _ & Hst' & _).
  rewrite Hr in Hx. apply ExtractFacts.Ok_inj in Hx. subst x.
  rewrite Hr' in Hx'. apply ExtractFacts.Ok_inj in Hx'. subst x'.
  rewrite Hst, Hst'. simpl. rewrite He, He', Hv, Hv'.
  assert (Hs' : forall o, In o (values m') <-> In o (values m))
    by (intros o; symmetry; apply Hs).
  apply tier_status_empty; unfold rounded_to;
    split; apply filter_nil_same_elements; assumption.
Qed.

(** An instance: an observation ingested once and twice. *)
Lemma status_ignores_order_and_copies_witness :
  status
    {| claim := Samples.claim_of 2.5 None None;
       status := EXACT_MATCH;
       matched_value := Some Samples.mae_2_50;
       difference_pct := Some 0%float;
       message := ExactMatchIn (lit "results.json") |}
  = status
      {| claim := Samples.claim_of 2.5 None None;
         status := EXACT_MATCH;
         matched_value := Some Samples.mae_2_50;
         difference_pct := Some 0%float;
         message := ExactMatchIn (lit "results.json") |}.
Proof.
  apply (status_ignores_order_and_copies
           {| values := [Samples.mae_2_50]; index := [] |}
           {| values := [Samples.mae_2_50; Samples.mae_2_50]; index := [] |}
           (Samples.matcher_of [Samples.mae_2_50])
           (Samples.matcher_of [Samples.mae_2_50; Samples.mae_2_50])
           1 (Samples.claim_of 2.5 None None)).
  - reflexivity.
  - reflexivity.
  - intros o. simpl. tauto.
  - reflexivity.
  - reflexivity.
Defined.

Lemma filter_not_nil_mono {A : Type} (P Q : A -> bool) (l : list A) :
  (forall x, P x = true -> Q x = true) ->
  filter Q l = [] -> filter P l = [].
Proof.
  intros HPQ H. apply filter_nil_iff. intros x Hx.
  destruct (P x) eqn:Hp; [|reflexivity].
  rewrite <- (proj1 (filter_nil_iff Q l) H x Hx). symmetry. now apply HPQ.
Qed.

(** X4. Raising the configured tolerance never demotes a claim: with
    [T1 <= T2] the status under [T2] is at least as good as under [T1],
    in the order EXACT_MATCH, CLOSE_MATCH, MISMATCH, UNVERIFIED. *)
Theorem raising_tolerance_never_demotes (m : ResultMatcher) (T1 T2 : float)
  (c : Claim) (r1 r2 : VerificationResult) :
  (T1 <=? T2)%float = true ->
  verify_claim {| matcher := m; tolerance_pct := T1 |} c = Ok r1 ->
  verify_claim {| matcher := m; tolerance_pct := T2 |} c = Ok r2 ->
  rank (status r1) <= rank (status r2).
Proof.
  intros HT H1 H2.
  destruct (verify_claim_cases {| matcher := m; tolerance_pct := T1 |} c)
    as (x & Hx & _ & Hst & _).
  destruct (verify_claim_cases {| matcher := m; tolerance_pct := T2 |} c)
    as (x' & Hx' & _ & Hst' & _).
  rewrite H1 in Hx. apply ExtractFacts.Ok_inj in Hx. subst x.
  rewrite H2 in Hx'. apply ExtractFacts.Ok_inj in Hx'. subst x'.
  rewrite Hst, Hst'. simpl matcher. simpl tolerance_pct.
  pose proof (filter_not_nil_mono
                (within_tolerance (Parser.value c) T1)
                (within_tolerance (Parser.value c) T2) (values m)
                (fun o => within_tolerance_mono_le (Parser.value c) T1 T2 o HT))
    as Hm.
  destruct (find_exact m (Parser.value c)); [|simpl; lia].
  destruct (filter (within_tolerance (Parser.value c) T2) (values m)).
  - rewrite (Hm eq_refl). simpl.
    destruct (filter (within_tolerance (Parser.value c) 10) (values m));
      simpl; lia.
  - destruct (filter (within_tolerance (Parser.value c) T1) (values m));
      [|simpl; lia].
    destruct (filter (within_tolerance (Parser.value c) 10) (values m));
      simpl; lia.
Qed.

(** An instance: 2.10 against 2.12 under the tolerances 0.5 and 1. *)
Lemma raising_tolerance_never_demotes_witness :
  rank (status RunSamples.mismatch_2_10) <= rank (status RunSamples.close_2_10).
Proof.
  exact (raising_tolerance_never_demotes
           (Samples.matcher_of [RunSamples.mae_2_12])
           0.5 1 RunSamples.claim_2_10_plain
           RunSamples.mismatch_2_10 RunSamples.close_2_10
           eq_refl eq_refl eq_refl).
Defined.

Lemma count_mismatches_loop (rs : list VerificationResult) (n : nat) :
  fold_left
    (fun n r =>
       if eqb (status_value (status r)) (lit "mismatch") then (n + 1)%nat
       else n)
    rs n
  = (n + count_status MISMATCH rs)%nat.
Proof.
  revert n. induction rs as [|r rs IH]; intros n; simpl.
  - unfold count_status. simpl. lia.
  - rewrite IH. unfold count_status. simpl.
    destruct (status r); simpl; lia.
Qed.

Lemma count_mismatches_count (rs : list VerificationResult) :
  count_mismatches rs = count_status MISMATCH rs.
Proof. unfold count_mismatches. now rewrite count_mismatches_loop. Qed.

Lemma count_status_zero (s : MatchStatus) (rs : list VerificationResult) :
  count_status s rs = 0 <-> forall r, In r rs -> status r <> s.
Proof.
  unfold count_status. rewrite length_zero_iff_nil, filter_nil_iff.
  split; intros H r Hr.
  - intros E. specialize (H r Hr). rewrite E in H.
    unfold status_eqb in H. now rewrite Nat.eqb_refl in H.
  - specialize (H r Hr). unfold status_eqb.
    apply Nat.eqb_neq. intros E. apply H.
    destruct (status r), s; simpl in E; congruence.
Qed.

Lemma calculate_stats_loop (rs : list VerificationResult) (s0 : Stats) :
  fold_left stats_step rs s0 =
  {| total := total s0;
     exact := (exact s0 + count_status EXACT_MATCH rs)%nat;
     close := (close s0 + count_status CLOSE_MATCH rs)%nat;
     mismatch := (mismatch s0 + count_status MISMATCH rs)%nat;
     unverified := (unverified s0 + count_status UNVERIFIED rs)%nat |}.
Proof.
  revert s0. induction rs as [|r rs IH]; intros s0; simpl.
  - unfold count_status. simpl. rewrite !Nat.add_0_r. now destruct s0.
  - rewrite IH. unfold stats_step, count_status. simpl.
    destruct (status r); simpl; f_equal; lia.
Qed.

Lemma count_status_total (rs : list VerificationResult) :
  (count_status EXACT_MATCH rs + count_status CLOSE_MATCH rs
   + count_status MISMATCH rs + count_status UNVERIFIED rs)%nat
  = List.length rs.
Proof.
  unfold count_status. induction rs as [|r rs IH]; simpl; [reflexivity|].
  destruct (status r); simpl; lia.
Qed.

(** X5. The counts of [_calculate_stats] are the numbers of results of each
    status, and they add up to the total, which is the number of results. *)
Theorem calculate_stats_partition (rs : list VerificationResult) :
  total (_calculate_stats rs) = List.length rs /\
  exact (_calculate_stats rs) = count_status EXACT_MATCH rs /\
  close (_calculate_stats rs) = count_status CLOSE_MATCH rs /\
  mismatch (_calculate_stats rs) = count_status MISMATCH rs /\
  unverified (_calculate_stats rs) = count_status UNVERIFIED rs /\
  (exact (_calculate_stats rs) + close (_calculate_stats rs)
   + mismatch (_calculate_stats rs) + unverified (_calculate_stats rs))%nat
  = total (_calculate_stats rs).
Proof.
  unfold _calculate_stats. rewrite calculate_stats_loop. simpl.
  repeat split. apply count_status_total.
Qed.

Lemma calculate_stats_mismatch (rs : list VerificationResult) :
  mismatch (_calculate_stats rs) = count_status MISMATCH rs.
Proof. unfold _calculate_stats. now rewrite calculate_stats_loop. Qed.

Lemma exit_code_zero (rs : list VerificationResult) :
  exit_code rs = 0 <-> count_status MISMATCH rs = 0.
Proof.
  unfold exit_code. rewrite count_mismatches_count.
  destruct (count_status MISMATCH rs); simpl; split; congruence.
Qed.

(** X6. The exit code of [check] is 0 when no result is a MISMATCH and 1
    otherwise; the mismatches it counts are those of [_calculate_stats],
    and the summary is green exactly when the exit code is 0. *)
Theorem exit_code_mismatch (rs : list VerificationResult) :
  (exit_code rs = 0 <-> forall r, In r rs -> status r <> MISMATCH) /\
  (exit_code rs = 1 <-> exists r, In r rs /\ status r = MISMATCH) /\
  count_mismatches rs = mismatch (_calculate_stats rs) /\
  (fst (_print_summary (_calculate_stats rs)) = green <-> exit_code rs = 0).
Proof.
  pose proof (calculate_stats_mismatch rs) as Hm.
  pose proof (exit_code_zero rs) as H0.
  split; [now rewrite H0, count_status_zero|]. split; [|split].
  - assert (H1 : exit_code rs = 1 <-> count_status MISMATCH rs <> 0).
    { unfold exit_code. rewrite count_mismatches_count.
      destruct (count_status MISMATCH rs); simpl; split; congruence. }
    rewrite H1. unfold count_status. rewrite length_zero_iff_nil. split.
    + intros Hne.
      destruct (filter (fun r => status_eqb (status r) MISMATCH) rs)
        as [|r l] eqn:Hf; [congruence|].
      assert (Hin : In r (r :: l)) by now left.
      rewrite <- Hf in Hin. apply filter_In in Hin as [Hin Hs].
      exists r. split; [assumption|].
      unfold status_eqb in Hs. apply Nat.eqb_eq in Hs.
      destruct (status r); simpl in Hs; congruence.
    + intros (r & Hin & Hs) Hnil.
      assert (Hr : In r []); [|destruct Hr].
      rewrite <- Hnil. apply filter_In. split; [assumption|].
      now rewrite Hs.
  - rewrite count_mismatches_count. now symmetry.
  - rewrite H0, <- Hm. unfold _print_summary.
    destruct (mismatch (_calculate_stats rs)) as [|[|[|n]]]; simpl;
      split; congruence.
Qed.

Lemma Forall2_In_right {A B : Type} (R : A -> B -> Prop) (l : list A)
  (l' : list B) (y : B) :
  Forall2 R l l' -> In y l' -> exists x, In x l /\ R x y.
Proof.
  induction 1 as [|a b l l' Hab Hall IH]; simpl; [tauto|].
  intros [<-|Hy].
  - exists a. auto.
  - destruct (IH Hy) as (x & Hx & Hr). exists x. auto.
Qed.

(** X7. Under a configured tolerance of 10 or more no claim is a MISMATCH,
    the last tier holding nothing the second does not: the results of
    [verify_paper] have no MISMATCH and the exit code of [check] is 0. *)
Theorem wide_tolerance_no_mismatch (claims : list Claim)
  (matcher : ResultMatcher) (tolerance_pct : float)
  (rs : list VerificationResult) :
  (10 <=? tolerance_pct)%float = true ->
  verify_paper claims matcher tolerance_pct = Ok rs ->
  (forall r, In r rs -> status r <> MISMATCH) /\ exit_code rs = 0.
Proof.
  intros HT Hrs.
  assert (Hno : forall r, In r rs -> status r <> MISMATCH).
  { unfold verify_paper, verify_all in Hrs.
    destruct (verify_all_loop
                {| Validator.matcher := matcher;
                   Validator.tolerance_pct := tolerance_pct |} claims [])
      as (rs' & Hrs' & Hall).
    rewrite Hrs in Hrs'. apply ExtractFacts.Ok_inj in Hrs'.
    simpl in Hrs'. subst rs'.
    intros r Hr.
    destruct (Forall2_In_right _ _ _ r Hall Hr) as (c & _ & Hc).
    destruct (verify_claim_cases
                {| Validator.matcher := matcher;
                   Validator.tolerance_pct := tolerance_pct |} c)
      as (x & Hx & _ & Hst & _).
    rewrite Hc in Hx. apply ExtractFacts.Ok_inj in Hx. subst x.
    rewrite Hst. simpl.
    pose proof (filter_not_nil_mono
                  (within_tolerance (Parser.value c) 10)
                  (within_tolerance (Parser.value c) tolerance_pct)
                  (values matcher)
                  (fun o =>
                     within_tolerance_mono_le (Parser.value c) 10
                       tolerance_pct o HT)) as Hm.
    destruct (find_exact matcher (Parser.value c)); [|discriminate].
    destruct (filter (within_tolerance (Parser.value c) tolerance_pct)
                (values matcher)); [|discriminate].
    rewrite (Hm eq_refl). discriminate. }
  split; [assumption|]. now apply exit_code_zero, count_status_zero.
Qed.

(** An instance: one claim under the tolerance 20. *)
Lemma wide_tolerance_no_mismatch_witness :
  (forall r, In r [RunSamples.close_2_10] -> status r <> MISMATCH) /\
  exit_code [RunSamples.close_2_10] = 0.
Proof.
  exact (wide_tolerance_no_mismatch
           [RunSamples.claim_2_10_plain]
           (Samples.matcher_of [RunSamples.mae_2_12]) 20
           [RunSamples.close_2_10] eq_refl eq_refl).
Defined.

End RunFacts.

(** ** More on the exact-match index *)

Module IndexMore.

Import PyStr Parser Matcher Validator Notions IndexNotions RunNotions.
Import FloatFacts IndexFacts RunFacts.

Close Scope float_scope.

(** An invariant of the loop of [_build_index] holds of the index built. *)
Lemma build_index_induction (I : dict -> list ResultValue -> Prop) :
  I [] [] ->
  (forall d done rv,
     I d done ->
     I (dict_set d (round_obj d (value rv))
          (bucket_or_empty (dict_get d (round_obj d (value rv))) ++ [rv]))
       (done ++ [rv])) ->
  forall m b, _build_index m = Ok b -> I (index b) (values m).
Proof.
  intros H0 Hstep m b. unfold _build_index.
  assert (Hloop : forall rest done d,
             I d done ->
             exists d', for_each rest index_step d = Ok d' /\
                        I d' (done ++ rest)).
  { induction rest as [|rv rest IH]; intros done d Hi; simpl.
    - exists d. now rewrite app_nil_r.
    - rewrite index_step_eq. cbv zeta. simpl bind.
      destruct (IH (done ++ [rv]) _ (Hstep d done rv Hi)) as (d' & H1 & H2).
      exists d'. split; [assumption|]. now rewrite <- app_assoc in H2. }
  destruct (Hloop (values m) [] [] H0) as (d' & Hd & Hi).
  rewrite Hd. simpl. intros H. apply ExtractFacts.Ok_inj in H. subst b.
  exact Hi.
Qed.

Lemma dict_set_buckets (d : dict) (key : float_obj) (rv : ResultValue) :
  Permutation
    (flat_map snd
       (dict_set d key (bucket_or_empty (dict_get d key) ++ [rv])))
    (flat_map snd d ++ [rv]).
Proof.
  induction d as [|[k0 b0] d IH]; simpl; [reflexivity|].
  destruct (key_match k0 key); simpl.
  - rewrite <- !app_assoc. apply Permutation_app_head, Permutation_app_comm.
  - rewrite <- app_assoc. now apply Permutation_app_head.
Qed.

Lemma dict_set_entry (d : dict) (key : float_obj) x k b :
  In (k, b) (dict_set d key x) -> In (k, b) d \/ b = x.
Proof.
  induction d as [|[k0 b0] d IH]; simpl.
  - intros [H|[]]. right. congruence.
  - destruct (key_match k0 key); simpl.
    + intros [H|H]; [right; congruence | left; now right].
    + intros [H|H]; [left; now left|].
      destruct (IH H); [left; now right | now right].
Qed.

(** X8. The index built by [_build_index] is a partition of the
    observations: its buckets together hold each observation as many times
    as [self.values] does, no bucket is empty, and no two buckets have equal
    keys. *)
Theorem build_index_partition (m b : ResultMatcher) :
  _build_index m = Ok b ->
  Permutation (flat_map snd (index b)) (values m) /\
  (forall k bucket, In (k, bucket) (index b) -> bucket <> []) /\
  uniq (keys (index b)).
Proof.
  intros H.
  apply (build_index_induction
           (fun d done =>
              Permutation (flat_map snd d) done /\
              (forall k bucket, In (k, bucket) d -> bucket <> []) /\
              uniq (keys d))); [| |exact H].
  - simpl. split; [constructor|]. split; [intros k bk []|exact I].
  - intros d done rv (Hp & Hne & Hu). split; [|split].
    + rewrite dict_set_buckets. now apply Permutation_app_tail.
    + intros k bk Hin. apply dict_set_entry in Hin as [Hin| ->].
      * eapply Hne; eassumption.
      * now destruct (bucket_or_empty _).
    + apply uniq_dict_set; [apply round_obj_fresh | assumption].
Qed.

(** An instance: three observations, two of one key. *)
Lemma build_index_partition_witness :
  Permutation
    (flat_map snd
       (index
          (Samples.matcher_of
             [Samples.mae_2_50; Samples.mae_2_4404; Samples.mae_2_50])))
    [Samples.mae_2_50; Samples.mae_2_4404; Samples.mae_2_50] /\
  (forall k bucket,
     In (k, bucket)
        (index
           (Samples.matcher_of
              [Samples.mae_2_50; Samples.mae_2_4404; Samples.mae_2_50])) ->
     bucket <> []) /\
  uniq
    (keys
       (index
          (Samples.matcher_of
             [Samples.mae_2_50; Samples.mae_2_4404; Samples.mae_2_50]))).
Proof.
  exact (build_index_partition
           {| values :=
                [Samples.mae_2_50; Samples.mae_2_4404; Samples.mae_2_50];
              index := [] |}
           (Samples.matcher_of
              [Samples.mae_2_50; Samples.mae_2_4404; Samples.mae_2_50])
           eq_refl).
Defined.

Lemma round6_nan (x : float) :
  Prim2SF x = S754_nan -> PyFloat.round6 x = x.
Proof. intros H. unfold PyFloat.round6. now rewrite H. Qed.

Lemma eqb_true_not_nan (a b : float) :
  (a =? b)%float = true -> Prim2SF a <> S754_nan /\ Prim2SF b <> S754_nan.
Proof.
  rewrite FloatAxioms.eqb_spec. unfold SFeqb.
  destruct (Prim2SF a), (Prim2SF b); simpl; intros H; split; congruence.
Qed.

Lemma nan_eqb_false (a b : float) :
  Prim2SF a = S754_nan -> (a =? b)%float = false /\ (b =? a)%float = false.
Proof.
  intros H. rewrite !FloatAxioms.eqb_spec, H. unfold SFeqb.
  split; [reflexivity|]. now destruct (Prim2SF b).
Qed.

Lemma leb_true_not_nan (a b : float) :
  (a <=? b)%float = true -> Prim2SF a <> S754_nan.
Proof.
  rewrite FloatAxioms.leb_spec. unfold SFleb.
  destruct (Prim2SF a); simpl; congruence.
Qed.

(** The difference is a nan as soon as one of the two values is. *)
Lemma relative_difference_nan (o : ResultValue) (c : Claim) :
  Prim2SF (Matcher.value o) = S754_nan \/
  Prim2SF (Parser.value c) = S754_nan ->
  Prim2SF (relative_difference o c) = S754_nan.
Proof.
  intros H. unfold relative_difference.
  assert (Hs : Prim2SF (Matcher.value o - Parser.value c)%float = S754_nan).
  { rewrite FloatAxioms.sub_spec. unfold SF64sub, SFsub.
    destruct H as [-> | ->]; [reflexivity|].
    now destruct (Prim2SF (Matcher.value o)). }
  rewrite FloatAxioms.mul_spec, FloatAxioms.div_spec, FloatAxioms.abs_spec, Hs.
  reflexivity.
Qed.

(** X9. On the index built, every observation whose rounded value is not
    a nan is found by [find_exact] of its own value; what [find_exact(V)]
    finds is an observation whose rounded value equals that of [V]; and
    nothing is found for a nan. *)
Theorem find_exact_round_trip (m b : ResultMatcher) :
  _build_index m = Ok b ->
  (forall rv,
     In rv (values m) ->
     (PyFloat.round6 (value rv) =? PyFloat.round6 (value rv))%float = true ->
     In rv (find_exact b (value rv))) /\
  (forall V o,
     In o (find_exact b V) ->
     In o (values m) /\
     (PyFloat.round6 (value o) =? PyFloat.round6 V)%float = true) /\
  (forall V, Prim2SF V = S754_nan -> find_exact b V = []).
Proof.
  intros H. split; [|split].
  - intros rv Hin Hk.
    destruct (find_exact_built m b (value rv) H) as [_ ->].
    apply filter_In. auto.
  - intros V o Ho.
    destruct (find_exact_built m b V H) as [_ He]. rewrite He in Ho.
    now apply filter_In in Ho.
  - intros V HV.
    destruct (find_exact_built m b V H) as [_ ->].
    apply filter_nil_iff. intros o _.
    rewrite (round6_nan V HV). now apply nan_eqb_false.
Qed.

(** An instance: the observation 2.4404 among two. *)
Lemma find_exact_round_trip_witness :
  In Samples.mae_2_4404
     (find_exact (Samples.matcher_of [Samples.mae_2_50; Samples.mae_2_4404])
        (value Samples.mae_2_4404)).
Proof.
  exact (proj1 (find_exact_round_trip
                  {| values := [Samples.mae_2_50; Samples.mae_2_4404];
                     index := [] |}
                  (Samples.matcher_of [Samples.mae_2_50; Samples.mae_2_4404])
                  eq_refl)
           Samples.mae_2_4404 (or_intror (or_introl eq_refl)) eq_refl).
Defined.

(** X10. A nan is never matched: when a result of [verify_claim], on a
    matcher whose index was built, carries a matched value, neither the
    value of the claim nor the value matched is a nan. *)
Theorem nan_never_matched (m b : ResultMatcher) (tol : float) (c : Claim)
  (r : VerificationResult) (o : ResultValue) :
  _build_index m = Ok b ->
  verify_claim {| matcher := b; tolerance_pct := tol |} c = Ok r ->
  matched_value r = Some o ->
  Prim2SF (Matcher.value o) <> S754_nan /\
  Prim2SF (Parser.value c) <> S754_nan.
Proof.
  intros Hb Hr Ho.
  assert (Hw : forall T, within_tolerance (Parser.value c) T o = true ->
                 Prim2SF (Matcher.value o) <> S754_nan /\
                 Prim2SF (Parser.value c) <> S754_nan).
  { intros T Hw.
    rewrite (within_tolerance_spec _ _ o c eq_refl) in Hw.
    apply andb_true_iff in Hw as [_ Hw]. apply leb_true_not_nan in Hw.
    split; intros E; apply Hw, relative_difference_nan; auto. }
  destruct (verify_claim_cases {| matcher := b; tolerance_pct := tol |} c)
    as (x & Hx & _ & _ & Hcase).
  rewrite Hr in Hx. apply ExtractFacts.Ok_inj in Hx. subst x.
  destruct (status r).
  - destruct Hcase as (_ & best & Hbest & Hin).
    assert (E : best = o) by congruence. subst best. simpl in Hin.
    destruct (find_exact_built m b (Parser.value c) Hb) as [_ He].
    rewrite He in Hin. apply filter_In in Hin as [_ Hk].
    apply eqb_true_not_nan in Hk as [Hk1 Hk2].
    split; intros E.
    + apply Hk1. now rewrite (round6_nan _ E).
    + apply Hk2. now rewrite (round6_nan _ E).
  - destruct Hcase as (best & Hbest & _ & Hwt & _).
    assert (E : best = o) by congruence. subst best. eapply Hw, Hwt.
  - destruct Hcase as (best & Hbest & _ & Hwt & _).
    assert (E : best = o) by congruence. subst best. eapply Hw, Hwt.
  - destruct Hcase as [Hnone _]. congruence.
Qed.

(** An instance: the claim 2.10 matched with 2.12. *)
Lemma nan_never_matched_witness :
  Prim2SF (Matcher.value RunSamples.mae_2_12) <> S754_nan /\
  Prim2SF (Parser.value RunSamples.claim_2_10_plain) <> S754_nan.
Proof.
  exact (nan_never_matched
           {| values := [RunSamples.mae_2_12]; index := [] |}
           (Samples.matcher_of [RunSamples.mae_2_12]) 1
           RunSamples.claim_2_10_plain RunSamples.close_2_10
           RunSamples.mae_2_12 eq_refl eq_refl eq_refl).
Defined.

End IndexMore.

(** ** More on the tokens of a line *)

Module TokenMore.

Import PyStr Parser TokenNotions TokenFacts.

Lemma match_number_head (c : ascii) (s : str) :
  is_number_char c = true -> exists n, match_number (c :: s) = Some n.
Proof.
  intros Hc. unfold match_number. simpl span. rewrite Hc.
  destruct (span is_number_char s) as [a r1].
  destruct (match r1 with
            | c0 :: r => if eqb_char c0 "." then (1, r) else (0, r1)
            | [] => (0, r1)
            end) as [dot r2].
  destruct (span is_digit r2) as [b r3]. eauto.
Qed.

Lemma finditer_from_sorted (s : str) (pos skip : nat) :
  StronglySorted (fun x y => snd x <= fst y) (finditer_from s pos skip).
Proof.
  revert pos skip. induction s as [|c s IH]; intros pos skip; simpl;
    [constructor|].
  destruct skip as [|k]; [|apply IH].
  destruct (match_number (c :: s)) as [n|] eqn:Hm; [|apply IH].
  constructor; [apply IH|].
  apply Forall_forall. intros [a b] Hin.
  apply finditer_from_sound in Hin as (Hle & _).
  pose proof (match_number_pos _ _ Hm). simpl. lia.
Qed.

(** X11. The tokens [finditer] yields on a line lie inside the line, are
    not empty, come from left to right and do not overlap. *)
Theorem finditer_disjoint (line : str) :
  StronglySorted (fun x y => snd x <= fst y) (finditer line) /\
  (forall s e, In (s, e) (finditer line) -> s < e <= List.length line).
Proof.
  split; [apply finditer_from_sorted|].
  intros s e H. now apply finditer_sound in H.
Qed.

Lemma finditer_from_covers (s : str) (pos skip p : nat) (c : ascii) :
  pos + skip <= p ->
  nth_error s (p - pos) = Some c ->
  is_number_char c = true ->
  exists a b, In (a, b) (finditer_from s pos skip) /\ a <= p < b.
Proof.
  revert pos skip. induction s as [|x s IH]; intros pos skip Hp Hn Hc.
  - destruct (p - pos); discriminate.
  - simpl. destruct skip as [|k].
    + destruct (Nat.eq_dec p pos) as [->|Hne].
      * rewrite Nat.sub_diag in Hn. simpl in Hn.
        assert (x = c) by congruence. subst x.
        destruct (match_number_head c s Hc) as (n & Hm). rewrite Hm.
        pose proof (match_number_pos _ _ Hm).
        exists pos, (pos + n). split; [now left | lia].
      * assert (Hn' : nth_error s (p - S pos) = Some c).
        { replace (p - pos) with (S (p - S pos)) in Hn by lia. exact Hn. }
        destruct (match_number (x :: s)) as [n|] eqn:Hm.
        -- destruct (Nat.lt_ge_cases p (pos + n)) as [Hlt|Hge].
           ++ exists pos, (pos + n). split; [now left | lia].
           ++ pose proof (match_number_pos _ _ Hm).
              destruct (IH (S pos) (n - 1)) as (a & b & Hin & Hab);
                [lia | assumption | assumption |].
              exists a, b. split; [now right | assumption].
        -- destruct (IH (S pos) 0) as (a & b & Hin & Hab);
             [lia | assumption | assumption |].
           exists a, b. auto.
    + assert (Hn' : nth_error s (p - S pos) = Some c).
      { replace (p - pos) with (S (p - S pos)) in Hn by lia. exact Hn. }
      destruct (IH (S pos) k) as (a & b & Hin & Hab);
        [lia | assumption | assumption |].
      exists a, b. auto.
Qed.

(** X12. No digit of a line is outside a token: every position of the
    line that holds a digit, or a comma, lies in one of the matches of
    [finditer]. *)
Theorem finditer_covers_digits (line : str) (p : nat) (c : ascii) :
  nth_error line p = Some c ->
  is_digit c = true \/ c = ","%char ->
  exists s e, In (s, e) (finditer line) /\ s <= p < e.
Proof.
  intros Hn Hc. apply (finditer_from_covers line 0 0 p c).
  - lia.
  - now rewrite Nat.sub_0_r.
  - unfold is_number_char. destruct Hc as [-> | ->]; [reflexivity|].
    apply orb_true_r.
Qed.

(** An instance: the 5 of [98.5K]. *)
Lemma finditer_covers_digits_witness :
  exists s e, In (s, e) (finditer (lit "has 98.5K")) /\ s <= 7 < e.
Proof.
  exact (finditer_covers_digits (lit "has 98.5K") 7 "5"%char
           eq_refl (or_introl eq_refl)).
Defined.

End TokenMore.

(** ** More on the claims of a document *)

Module DocumentFacts.

Import PyStr Parser TokenNotions DocumentNotions.
Import TokenFacts NumberFacts ExtractFacts.

Lemma split_not_nil (c : ascii) (s : str) : split c s <> [].
Proof.
  destruct s as [|x s]; simpl; [discriminate|].
  destruct (eqb_char c x); [discriminate|].
  destruct (split c s); discriminate.
Qed.

(** The lines of two texts joined by a separator are the lines of the one
    and then of the other. *)
Lemma split_join (c : ascii) (a b : str) :
  split c (a ++ c :: b) = split c a ++ split c b.
Proof.
  induction a as [|x a IH]; simpl.
  - unfold eqb_char. now rewrite Ascii.eqb_refl.
  - destruct (eqb_char c x); [now rewrite IH|].
    rewrite IH. pose proof (split_not_nil c a).
    destruct (split c a); [congruence | reflexivity].
Qed.

Lemma enumerate_app {A : Type} (k : nat) (l1 l2 : list A) :
  enumerate k (l1 ++ l2) =
  enumerate k l1 ++ enumerate (k + List.length l1) l2.
Proof.
  revert k. induction l1 as [|x l1 IH]; intros k; simpl.
  - now rewrite Nat.add_0_r.
  - rewrite IH. do 3 f_equal. lia.
Qed.

Lemma for_each_app {A S : Type} (l1 l2 : list A) (body : S -> A -> py S)
  (s : S) :
  for_each (l1 ++ l2) body s =
  (s' <- for_each l1 body s ;; for_each l2 body s').
Proof.
  revert s. induction l1 as [|x l1 IH]; intros s; simpl; [reflexivity|].
  destruct (body s x); simpl; [apply IH | reflexivity].
Qed.

(** A loop whose body appends, to whatever list it is given, a list that
    depends on the element only. *)
Lemma for_each_appends {A B : Type} (l : list A)
  (body : list B -> A -> py (list B)) :
  (forall x, exists new, forall acc, body acc x = Ok (acc ++ new)) ->
  exists out, forall acc, for_each l body acc = Ok (acc ++ out).
Proof.
  intros Hbody. induction l as [|x l IH]; simpl.
  - exists []. intros acc. now rewrite app_nil_r.
  - destruct (Hbody x) as (new & Hnew). destruct IH as (out & Hout).
    exists (new ++ out). intros acc.
    rewrite Hnew. simpl bind. now rewrite Hout, app_assoc.
Qed.

Lemma extract_step_appends (line : str) (n : nat) (m : nat * nat) :
  exists new, forall acc, extract_step line n acc m = Ok (acc ++ new).
Proof.
  destruct m as [s e]. unfold extract_step.
  destruct ((List.length (slice line s e) <? 2)
            && negb (has_char "." (slice line s e))).
  - exists []. intros acc. now rewrite app_nil_r.
  - destruct (_parse_number (slice line s e)) as [v|ex] eqn:Hp.
    + destruct ((v =? 0)%float || (1000000000 <? v)%float).
      * exists []. intros acc. now rewrite app_nil_r.
      * eexists. intros acc. reflexivity.
    + rewrite (parse_number_raises _ _ Hp).
      exists []. intros acc. now rewrite app_nil_r.
Qed.

Lemma parse_step_appends (x : nat * str) :
  exists new, forall acc, parse_step acc x = Ok (acc ++ new).
Proof.
  destruct x as [n line]. unfold parse_step.
  destruct (startswith (lit "%") (strip line)).
  - exists []. intros acc. now rewrite app_nil_r.
  - destruct (_is_non_claim_line line).
    + exists []. intros acc. now rewrite app_nil_r.
    + unfold _extract_claims_from_line.
      destruct (for_each_appends (finditer line) (extract_step line n)
                  (extract_step_appends line n)) as (out & Hout).
      exists out. intros acc. rewrite Hout. reflexivity.
Qed.

Lemma extract_step_renumber (line : str) (n k : nat) (acc out : list Claim)
  (m : nat * nat) :
  extract_step line n acc m = Ok out ->
  extract_step line (n + k) (map (renumber k) acc) m
  = Ok (map (renumber k) out).
Proof.
  destruct m as [s e]. unfold extract_step.
  destruct ((List.length (slice line s e) <? 2)
            && negb (has_char "." (slice line s e))).
  - intros H. apply Ok_inj in H. now subst.
  - destruct (_parse_number (slice line s e)) as [v|ex] eqn:Hp.
    + destruct ((v =? 0)%float || (1000000000 <? v)%float).
      * intros H. apply Ok_inj in H. now subst.
      * intros H. apply Ok_inj in H. subst out.
        rewrite map_app. reflexivity.
    + rewrite (parse_number_raises _ _ Hp).
      intros H. apply Ok_inj in H. now subst.
Qed.

Lemma for_each_renumber {A : Type} (l : list A)
  (body body' : list Claim -> A -> py (list Claim)) (k : nat) :
  (forall acc out x,
     body acc x = Ok out ->
     body' (map (renumber k) acc) x = Ok (map (renumber k) out)) ->
  (forall acc x, exists out, body acc x = Ok out) ->
  forall acc out,
    for_each l body acc = Ok out ->
    for_each l body' (map (renumber k) acc) = Ok (map (renumber k) out).
Proof.
  intros Hb Htot. induction l as [|x l IH]; intros acc out; simpl.
  - intros H. apply Ok_inj in H. now subst.
  - destruct (Htot acc x) as (mid & Hmid). rewrite Hmid. simpl bind.
    rewrite (Hb _ _ _ Hmid). simpl bind. apply IH.
Qed.

Lemma parse_step_renumber (k : nat) (acc out : list Claim) (n : nat)
  (line : str) :
  parse_step acc (n, line) = Ok out ->
  parse_step (map (renumber k) acc) (n + k, line)
  = Ok (map (renumber k) out).
Proof.
  unfold parse_step.
  destruct (startswith (lit "%") (strip line)).
  - intros H. apply Ok_inj in H. now subst.
  - destruct (_is_non_claim_line line).
    + intros H. apply Ok_inj in H. now subst.
    + unfold _extract_claims_from_line.
      destruct (for_each (finditer line) (extract_step line n) [])
        as [cs|] eqn:Hcs; simpl bind; [|discriminate].
      intros H. apply Ok_inj in H. subst out.
      pose proof
        (for_each_renumber (finditer line) (extract_step line n)
           (extract_step line (n + k)) k
           (fun acc out x => extract_step_renumber line n k acc out x)
           (fun acc x =>
              match extract_step_appends line n x with
              | ex_intro _ new Hnew => ex_intro _ (acc ++ new) (Hnew acc)
              end)
           [] cs Hcs) as Hr.
      simpl map in Hr. rewrite Hr. simpl bind. now rewrite map_app.
Qed.

Lemma parse_loop_renumber (k : nat) (lines : list str) (start : nat)
  (acc out : list Claim) :
  for_each (enumerate start lines) parse_step acc = Ok out ->
  for_each (enumerate (start + k) lines) parse_step (map (renumber k) acc)
  = Ok (map (renumber k) out).
Proof.
  revert start acc. induction lines as [|line lines IH]; intros start acc;
    cbn [enumerate for_each].
  - intros H. apply Ok_inj in H. now subst.
  - destruct (parse_step acc (start, line)) as [mid|] eqn:Hmid;
      cbn [bind]; [|discriminate].
    rewrite (parse_step_renumber k _ _ _ _ Hmid). cbn [bind].
    intros H. apply (IH (S start)). exact H.
Qed.

Lemma parse_join (a b : str) :
  exists ca cb,
    parse_content a = Ok ca /\
    parse_content b = Ok cb /\
    parse_content (a ++ "010"%char :: b)
    = Ok (ca ++ map (renumber (List.length (split "010" a))) cb).
Proof.
  unfold parse_content.
  destruct (for_each_appends (enumerate 1 (split "010" a)) parse_step
              parse_step_appends) as (ca & Hca).
  destruct (for_each_appends (enumerate 1 (split "010" b)) parse_step
              parse_step_appends) as (cb & Hcb).
  exists ca, cb. rewrite (Hca []), (Hcb []). simpl app.
  split; [reflexivity|]. split; [reflexivity|].
  rewrite split_join, enumerate_app, for_each_app, (Hca []).
  cbn [bind app].
  destruct (for_each_appends
              (enumerate (1 + List.length (split "010" a))
                 (split "010" b)) parse_step parse_step_appends)
    as (cb' & Hcb').
  rewrite (Hcb' ca).
  pose proof (parse_loop_renumber (List.length (split "010" a))
                (split "010" b) 1 [] cb (Hcb [])) as Hr.
  simpl map in Hr. rewrite (Hcb' []) in Hr. simpl app in Hr.
  apply Ok_inj in Hr. now rewrite Hr.
Qed.

(** X13. The claims of two texts joined by a line feed are the claims of
    the first followed by the claims of the second, the line numbers of
    these raised by the number of lines of the first. *)
Theorem parse_content_join (a b : str) :
  exists ca cb,
    parse_content a = Ok ca /\
    parse_content b = Ok cb /\
    parse_content (a ++ "010"%char :: b)
    = Ok (ca ++ map (renumber (List.length (split "010" a))) cb).
Proof. exact (parse_join a b). Qed.

Lemma split_one_line (c : ascii) (s : str) : ~ In c s -> split c s = [s].
Proof.
  induction s as [|x s IH]; simpl; [reflexivity|].
  intros H. unfold eqb_char.
  destruct (Ascii.eqb c x) eqn:E.
  - apply Ascii.eqb_eq in E. subst. exfalso. apply H. now left.
  - rewrite IH; [reflexivity|]. intros Hin. apply H. now right.
Qed.

Lemma renumber_renumber (k1 k2 : nat) (cs : list Claim) :
  map (renumber k1) (map (renumber k2) cs) = map (renumber (k2 + k1)) cs.
Proof.
  rewrite map_map. apply map_ext. intros c. unfold renumber. simpl.
  f_equal. lia.
Qed.

(** X19. A line that is skipped, its first character that is not white
    space being [%] or the line holding one of the six directives, can be
    put between two texts without any effect on their claims but on the
    line numbers of the second. *)
Theorem skipped_line_between (a line b : str) :
  ~ In "010"%char line ->
  startswith (lit "%") (strip line) = true \/ _is_non_claim_line line = true ->
  exists ca cb,
    parse_content a = Ok ca /\
    parse_content b = Ok cb /\
    parse_content (a ++ "010"%char :: line ++ "010"%char :: b)
    = Ok (ca ++ map (renumber (List.length (split "010" a) + 1)) cb).
Proof.
  intros Hnl Hskip.
  destruct (parse_join line b) as (cl & cb & Hcl & Hcb & Hlb).
  destruct (parse_join a (line ++ "010"%char :: b))
    as (ca & clb & Hca & Hclb & Hall).
  exists ca, cb. split; [assumption|]. split; [assumption|].
  rewrite Hall. do 2 f_equal.
  rewrite Hlb in Hclb. apply Ok_inj in Hclb. subst clb.
  assert (cl = []) as ->.
  { unfold parse_content in Hcl. rewrite (split_one_line _ _ Hnl) in Hcl.
    cbn [enumerate for_each parse_step] in Hcl.
    destruct Hskip as [Hs|Hs]; rewrite Hs in Hcl.
    - cbn [bind] in Hcl. now apply Ok_inj in Hcl.
    - destruct (startswith (lit "%") (strip line)); cbn [bind] in Hcl;
        now apply Ok_inj in Hcl. }
  rewrite (split_one_line _ _ Hnl). simpl app.
  rewrite renumber_renumber. apply map_ext. intros c.
  unfold renumber. f_equal. simpl. lia.
Qed.

(** An instance: a comment between two lines. *)
Lemma skipped_line_between_witness :
  exists ca cb,
    parse_content (lit "MAE is 2.44") = Ok ca /\
    parse_content (lit "RMSE is 3.10") = Ok cb /\
    parse_content
      (lit "MAE is 2.44" ++ "010"%char :: lit "% was 2.50" ++ "010"%char
       :: lit "RMSE is 3.10")
    = Ok (ca ++
          map (renumber (List.length (split "010" (lit "MAE is 2.44")) + 1))
            cb).
Proof.
  apply (skipped_line_between (lit "MAE is 2.44") (lit "% was 2.50")
           (lit "RMSE is 3.10")).
  - simpl. intros H. repeat (destruct H as [H|H]; [discriminate H|]).
    exact H.
  - left. reflexivity.
Defined.

End DocumentFacts.

(** ** The hints of a claim *)

Module HintFacts.

Import PyStr Parser DocumentNotions NumberFacts.

Lemma lower_char_idem (c : ascii) : lower_char (lower_char c) = lower_char c.
Proof. ascii_cases c; reflexivity. Qed.

Lemma lower_idem (s : str) : lower (lower s) = lower s.
Proof.
  unfold lower. rewrite map_map. apply map_ext. exact lower_char_idem.
Qed.

Lemma is_separator_lower (c : ascii) :
  is_separator (lower_char c) = is_separator c.
Proof. ascii_cases c; reflexivity. Qed.

Lemma eqb_char_eq (a b : ascii) : eqb_char a b = true -> a = b.
Proof. apply Ascii.eqb_eq. Qed.

Lemma startswith_refl_app (p s : str) : startswith p (p ++ s) = true.
Proof.
  induction p as [|x p IH]; simpl; [reflexivity|].
  unfold eqb_char. now rewrite Ascii.eqb_refl.
Qed.

Lemma contains_middle (a p b : str) : contains p (a ++ p ++ b) = true.
Proof.
  induction a as [|x a IH].
  - simpl app. destruct (p ++ b) eqn:E; simpl;
      rewrite <- E, startswith_refl_app; reflexivity.
  - simpl. rewrite IH. apply orb_true_r.
Qed.

(** A literal matched at the head of [s]: the text matched is the literal
    once in lower case. *)
Lemma match_literal_spec (p s r : str) :
  match_literal p s = Some r ->
  s = firstn (List.length p) s ++ r /\
  lower (firstn (List.length p) s) = p /\
  List.length p <= List.length s.
Proof.
  revert s. induction p as [|x p IH]; intros s; simpl.
  - intros H. injection H as <-. auto with arith.
  - destruct s as [|y s]; [discriminate|].
    destruct (eqb_char x (lower_char y)) eqn:E; [|discriminate].
    intros H. apply IH in H as (H1 & H2 & H3).
    apply eqb_char_eq in E. simpl.
    split; [now rewrite <- H1|]. split; [now rewrite H2, E | lia].
Qed.

Lemma match_pattern_name (p : model_pattern) (s : str) (k : nat) :
  match_pattern p s = Some k ->
  List.length (pattern_name p) <= k /\
  lower (firstn (List.length (pattern_name p)) s) = pattern_name p /\
  List.length (pattern_name p) <= List.length s.
Proof.
  destruct p as [n|n vs]; simpl.
  - destruct (match_literal n s) as [r|] eqn:E; [|discriminate].
    intros H. injection H as <-.
    apply match_literal_spec in E as (_ & H2 & H3). auto.
  - destruct (match_literal n s) as [r|] eqn:E; [|discriminate].
    destruct (span is_separator r) as [seps r'].
    intros H. injection H as <-.
    apply match_literal_spec in E as (_ & H2 & H3).
    split; [lia | auto].
Qed.

Lemma match_alternation_some (ps : list model_pattern) (s : str) (k : nat) :
  match_alternation ps s = Some k ->
  exists p, In p ps /\ match_pattern p s = Some k.
Proof.
  induction ps as [|p ps IH]; simpl; [discriminate|].
  destruct (match_pattern p s) as [k'|] eqn:E.
  - intros H. injection H as <-. exists p. auto.
  - intros H. destruct (IH H) as (q & Hq & Hm). exists q. auto.
Qed.

Lemma model_pattern_search_some (s g : str) :
  model_pattern_search s = Some g ->
  exists pre t k,
    s = pre ++ t /\
    match_alternation MODEL_PATTERNS t = Some k /\
    g = firstn k t.
Proof.
  induction s as [|x s IH].
  - simpl. discriminate.
  - unfold model_pattern_search. fold model_pattern_search.
    destruct (match_alternation MODEL_PATTERNS (x :: s)) as [k|] eqn:E.
    + intros H. injection H as <-. exists [], (x :: s), k. auto.
    + intros H. destruct (IH H) as (pre & t & k & -> & Hk & ->).
      exists (x :: pre), t, k. auto.
Qed.

Lemma startswith_firstn (p s : str) :
  firstn (List.length p) s = p -> startswith p s = true.
Proof.
  intros H. rewrite <- (firstn_skipn (List.length p) s), H.
  apply startswith_refl_app.
Qed.


Lemma match_literal_lower (p s : str) :
  match_literal p (lower s) = option_map lower (match_literal p s).
Proof.
  revert s. induction p as [|x p IH]; intros s; simpl; [reflexivity|].
  destruct s as [|y s]; simpl; [reflexivity|].
  rewrite lower_char_idem.
  destruct (eqb_char x (lower_char y)); [apply IH | reflexivity].
Qed.

Lemma match_first_lower (vs : list str) (s : str) :
  match_first vs (lower s) = match_first vs s.
Proof.
  induction vs as [|v vs IH]; simpl; [reflexivity|].
  rewrite match_literal_lower.
  destruct (match_literal v s); simpl; [reflexivity | apply IH].
Qed.

Lemma span_separator_lower (s : str) :
  span is_separator (lower s) =
  (lower (fst (span is_separator s)), lower (snd (span is_separator s))).
Proof.
  induction s as [|c s IH]; simpl; [reflexivity|].
  rewrite is_separator_lower.
  destruct (is_separator c); [|reflexivity].
  fold (lower s). rewrite IH.
  destruct (span is_separator s). reflexivity.
Qed.

Lemma match_pattern_lower (p : model_pattern) (s : str) :
  match_pattern p (lower s) = match_pattern p s.
Proof.
  destruct p as [n|n vs]; simpl; rewrite match_literal_lower.
  - destruct (match_literal n s); reflexivity.
  - destruct (match_literal n s) as [r|]; simpl; [|reflexivity].
    rewrite span_separator_lower.
    destruct (span is_separator r) as [seps r']. simpl.
    rewrite match_first_lower. unfold lower. now rewrite length_map.
Qed.

Lemma match_alternation_lower (ps : list model_pattern) (s : str) :
  match_alternation ps (lower s) = match_alternation ps s.
Proof.
  induction ps as [|p ps IH]; simpl; [reflexivity|].
  rewrite match_pattern_lower. destruct (match_pattern p s); auto.
Qed.

Lemma model_pattern_search_lower (s : str) :
  model_pattern_search (lower s) = option_map lower (model_pattern_search s).
Proof.
  induction s as [|x s IH]; [reflexivity|].
  change (lower (x :: s)) with (lower_char x :: lower s).
  unfold model_pattern_search. fold model_pattern_search.
  change (lower_char x :: lower s) with (lower (x :: s)).
  rewrite match_alternation_lower.
  destruct (match_alternation MODEL_PATTERNS (x :: s)) as [k|].
  - cbn [option_map]. unfold lower. now rewrite firstn_map.
  - exact IH.
Qed.

Lemma identify_model_lower (s : str) :
  _identify_model (lower s) = _identify_model s.
Proof.
  unfold _identify_model. rewrite model_pattern_search_lower.
  destruct (model_pattern_search s); simpl; [|reflexivity].
  now rewrite lower_idem.
Qed.



End HintFacts.

(** ** The loaders *)

Module LoaderFacts.

Import PyStr Parser Matcher Loader ScoreNotions LoaderNotions.
Import NumberFacts ExtractFacts HintFacts.

Lemma eqb_eq_str (a b : str) : eqb a b = true -> a = b.
Proof.
  revert b. induction a as [|x a IH]; intros [|y b]; simpl;
    try discriminate; [reflexivity|].
  intros H. apply andb_true_iff in H as [H1 H2].
  apply eqb_char_eq in H1. apply IH in H2. congruence.
Qed.

(** What [_guess_metric] returns is one of five names, the first in the
    order mae, rmse, smape, latency, vram that occurs in the path in lower
    case. *)
Lemma guess_metric_some (path h : str) :
  _guess_metric path = Some h ->
  In h [lit "mae"; lit "rmse"; lit "smape"; lit "latency"; lit "vram"] /\
  contains h (lower path) = true /\ lower h = h.
Proof.
  unfold _guess_metric.
  repeat match goal with
    | |- context [if contains ?n ?p then _ else _] =>
        let E := fresh "E" in destruct (contains n p) eqn:E
    end;
    intros H; try discriminate H;
    injection H as <-; (split; [simpl; tauto | split; [assumption|reflexivity]]).
Qed.

(** X16. An observation whose metric is the one guessed from its own path,
    as [_extract_from_dict] sets it, earns the path bonus whenever it earns
    the metric bonus: its score for a claim of that metric is 15 at least,
    never 10. *)
Theorem guessed_metric_scores_path (c : Claim) (m : ResultValue) :
  metric m = _guess_metric (path m) ->
  metric_equal c m = true ->
  metric_in_path c m = true /\ (15 <= additive_score c m)%Z.
Proof.
  intros Hg He.
  assert (Hp : metric_in_path c m = true).
  { unfold metric_equal in He. unfold metric_in_path.
    apply andb_true_iff in He as [He Heq].
    apply andb_true_iff in He as [Hh Hm]. rewrite Hh. simpl.
    apply eqb_eq_str in Heq. rewrite Heq.
    destruct (metric m) as [h|] eqn:Em; [|discriminate].
    symmetry in Hg. apply guess_metric_some in Hg as (_ & Hc & Hl).
    simpl. now rewrite Hl. }
  split; [assumption|].
  unfold additive_score. rewrite He, Hp.
  destruct (model_overlap c m); lia.
Qed.

(** An instance: a claim on the MAE and an observation at [metrics.mae]. *)
Lemma guessed_metric_scores_path_witness :
  metric_in_path Samples.claim_2_10 Samples.mae_2_50 = true /\
  (15 <= additive_score Samples.claim_2_10 Samples.mae_2_50)%Z.
Proof.
  exact (guessed_metric_scores_path Samples.claim_2_10 Samples.mae_2_50
           eq_refl eq_refl).
Defined.

Lemma find_snoc {A : Type} (p : A -> bool) (l : list A) (x : A) :
  find p (l ++ [x]) =
  match find p l with
  | Some y => Some y
  | None => if p x then Some x else None
  end.
Proof.
  induction l as [|y l IH]; simpl; [reflexivity|].
  destruct (p y); [reflexivity | exact IH].
Qed.

Lemma find_last_cons {A : Type} (p : A -> bool) (x : A) (l : list A) :
  find_last p (x :: l) =
  match find_last p l with
  | Some y => Some y
  | None => if p x then Some x else None
  end.
Proof. unfold find_last. simpl. apply find_snoc. Qed.

Lemma filename_loop (parts : list str) (m0 d0 : option str) :
  fold_left filename_step parts (m0, d0) =
  (match find_last (mentions models) parts with
   | Some p => Some p
   | None => m0
   end,
   match find_last (mentions datasets) parts with
   | Some p => Some p
   | None => d0
   end).
Proof.
  revert m0 d0. induction parts as [|x parts IH]; intros m0 d0;
    [reflexivity|].
  cbn [fold_left filename_step]. rewrite IH, !find_last_cons.
  destruct (find_last (mentions models) parts),
    (find_last (mentions datasets) parts),
    (mentions models x), (mentions datasets x); reflexivity.
Qed.

(** The characters of a piece of [split] are characters of the text. *)
Lemma split_chars (c : ascii) (s l : str) (x : ascii) :
  In l (split c s) -> In x l -> In x s.
Proof.
  revert l. induction s as [|y s IH]; simpl; intros l.
  - intros [<-|[]] [].
  - destruct (eqb_char c y).
    + intros [<-|H]; [intros [] | right; eapply IH; eassumption].
    + destruct (split c s) as [|l0 ls] eqn:Es.
      * intros [<-|[]] [->|[]]. now left.
      * intros [<-|H].
        -- intros [->|Hx]; [now left|]. right. apply (IH l0); auto.
           now left.
        -- intros Hx. right. apply (IH l); auto. now right.
Qed.

Lemma find_last_some {A : Type} (p : A -> bool) (l : list A) (x : A) :
  find_last p l = Some x -> In x l /\ p x = true.
Proof.
  unfold find_last. intros H. apply find_some in H as [H1 H2].
  split; [now apply in_rev | assumption].
Qed.

Lemma cleaned_char (c : ascii) :
  let c' := if eqb_char "-" (lower_char c) then "_"%char else lower_char c in
  c' <> "-"%char /\ lower_char c' = c'.
Proof. ascii_cases c; split; (discriminate || reflexivity). Qed.

(** X17. [_parse_filename] breaks the file name, in lower case and with
    [-] read as [_], at each [_], and returns as model the last part that
    contains a model name, as dataset the last part that contains a dataset
    name, and [None] where no part does.  A part returned is not empty, is
    in lower case and holds no [_] and no [-]. *)
Theorem parse_filename_last_part (filename : str) :
  let parts := split "_" (replace_char "-" "_" (lower filename)) in
  _parse_filename filename =
    (find_last (mentions models) parts, find_last (mentions datasets) parts)
  /\
  (forall p,
     fst (_parse_filename filename) = Some p \/
     snd (_parse_filename filename) = Some p ->
     In p parts /\ p <> [] /\ lower p = p /\
     ~ In "_"%char p /\ ~ In "-"%char p).
Proof.
  intros parts.
  assert (E : _parse_filename filename =
              (find_last (mentions models) parts,
               find_last (mentions datasets) parts)).
  { unfold _parse_filename. fold parts. rewrite filename_loop.
    destruct (find_last (mentions models) parts),
      (find_last (mentions datasets) parts); reflexivity. }
  split; [exact E|].
  intros p Hp. rewrite E in Hp. simpl in Hp.
  assert (Hin : In p parts /\ p <> []).
  { destruct Hp as [Hp|Hp]; apply find_last_some in Hp as [Hin Hm];
      (split; [assumption|]); intros ->; discriminate Hm. }
  destruct Hin as [Hin Hne].
  assert (Hchars : forall x, In x p ->
                     x <> "-"%char /\ lower_char x = x).
  { intros x Hx.
    pose proof (split_chars "_" _ p x Hin Hx) as Hs.
    unfold replace_char, lower in Hs. rewrite map_map in Hs.
    apply in_map_iff in Hs as (c & <- & _). apply cleaned_char. }
  split; [assumption|]. split; [assumption|]. split; [|split].
  - unfold lower. rewrite <- (map_id p) at 2.
    apply map_ext_in. intros x Hx. now apply Hchars.
  - exact (split_no_sep "_" _ p Hin).
  - intros Hx. now apply Hchars in Hx as [Hx _].
Qed.

Lemma startswith_trans (a b c : str) :
  startswith a b = true -> startswith b c = true -> startswith a c = true.
Proof.
  revert b c. induction a as [|x a IH]; intros b c; [reflexivity|].
  destruct b as [|y b]; [discriminate|].
  destruct c as [|z c]; [discriminate|]. simpl.
  intros H1 H2. apply andb_true_iff in H1 as [H1 H1'].
  apply andb_true_iff in H2 as [H2 H2'].
  apply eqb_char_eq in H1. apply eqb_char_eq in H2. subst.
  unfold eqb_char. rewrite Ascii.eqb_refl. simpl. eapply IH; eassumption.
Qed.

Lemma startswith_refl (a : str) : startswith a a = true.
Proof.
  rewrite <- (app_nil_r a) at 2. apply startswith_refl_app.
Qed.

Lemma ingested_longer (src path path' : str) (model dataset : option str)
  (rv : ResultValue) :
  startswith path path' = true ->
  WalkNotions.ingested src path' model dataset rv ->
  WalkNotions.ingested src path model dataset rv.
Proof.
  intros Hp (H1 & H2 & H3 & H4 & H5). repeat split; auto.
  eapply startswith_trans; eassumption.
Qed.

(** A loop over the items, each of which only appends. *)
Lemma items_loop_appends {A : Type}
  (body : nat -> A -> list ResultValue -> list ResultValue * option load_exn)
  (G : ResultValue -> Prop) (fits : A -> bool) (items : list A) :
  Forall
    (fun x =>
       forall i values,
       exists new,
         fst (body i x values) = values ++ new /\ Forall G new /\
         (fits x = true -> snd (body i x values) = None)) items ->
  forall i values,
  exists new,
    fst (items_loop body i items values) = values ++ new /\
    Forall G new /\
    (forallb fits items = true ->
     snd (items_loop body i items values) = None).
Proof.
  induction 1 as [|x items Hx Hall IH]; intros i values; simpl.
  - exists []. rewrite app_nil_r. auto.
  - destruct (Hx i values) as (new & Hfst & Hg & Hsnd).
    destruct (body i x values) as [values' [e|]] eqn:Eb; simpl in *.
    + exists new. split; [assumption|]. split; [assumption|].
      intros Hf. apply andb_true_iff in Hf as [Hf _].
      specialize (Hsnd Hf). discriminate.
    + subst values'.
      destruct (IH (S i) (values ++ new)) as (new' & Hfst' & Hg' & Hsnd').
      exists (new ++ new'). rewrite Hfst', app_assoc.
      split; [reflexivity|]. split; [now apply Forall_app|].
      intros Hf. apply andb_true_iff in Hf as [_ Hf]. auto.
Qed.

Lemma append_value_ingested (x : float) (src path : str)
  (model dataset : option str) (values : list ResultValue) :
  exists new,
    append_value x src path model dataset values = values ++ new /\
    Forall (WalkNotions.ingested src path model dataset) new.
Proof.
  eexists. split; [reflexivity|].
  constructor; [|constructor].
  repeat split. simpl. apply startswith_refl.
Qed.

Lemma walk_ok_all (data : json) : WalkNotions.walk_ok data.
Proof.
  induction data using json_nested_ind;
    intros src path model dataset values.
  - exists []. simpl. rewrite app_nil_r. auto.
  - destruct (append_value_ingested (if b then 1 else 0)%float src path
                model dataset values) as (new & H1 & H2).
    exists new. simpl. auto.
  - simpl. destruct (float_of_int z) as [e|x] eqn:Ez.
    + exists []. simpl. rewrite app_nil_r.
      split; [reflexivity|]. split; [constructor | discriminate].
    + destruct (append_value_ingested x src path model dataset values)
        as (new & H1 & H2).
      exists new. simpl. auto.
  - destruct (append_value_ingested x src path model dataset values)
      as (new & H1 & H2).
    exists new. simpl. auto.
  - exists []. simpl. rewrite app_nil_r. auto.
  - cbn [_extract_from_dict LoaderNotions.ints_fit].
    destruct (100 <? List.length items)%nat.
    + exists []. simpl. rewrite app_nil_r. auto.
    + apply items_loop_appends.
      eapply Forall_impl; [|exact H].
      intros item Hitem i vals.
      destruct (Hitem src (path ++ lit "[" ++ str_of_nat i ++ lit "]")
                  model dataset vals) as (new & H1 & H2 & H3).
      exists new. split; [assumption|]. split; [|assumption].
      eapply Forall_impl; [|exact H2].
      intros rv. apply ingested_longer. apply startswith_refl_app.
  - cbn [_extract_from_dict LoaderNotions.ints_fit].
    apply (items_loop_appends _ _ (fun kv => LoaderNotions.ints_fit (snd kv))).
    eapply Forall_impl; [|exact H].
    intros [key value] Hitem i vals. simpl in Hitem.
    destruct (Hitem src (if truthy path then path ++ lit "." ++ key else key)
                model dataset vals) as (new & H1 & H2 & H3).
    exists new. split; [assumption|]. split; [|assumption].
    eapply Forall_impl; [|exact H2].
    intros rv. apply ingested_longer.
    destruct path; simpl truthy; cbv iota; [reflexivity|].
    apply startswith_refl_app.
Qed.


End LoaderFacts.

(** ** The status of a claim, by the evidence *)

Module EvidenceFacts.

Import PyStr Parser Matcher Validator Notions IndexNotions RunNotions.
Import EvidenceNotions SelectFacts RunFacts.

Close Scope float_scope.

Lemma filter_some_iff {A : Type} (P : A -> bool) (l : list A) :
  filter P l <> [] <-> exists x, In x l /\ P x = true.
Proof.
  split.
  - destruct (filter P l) as [|x l'] eqn:E; [congruence|]. intros _.
    assert (Hin : In x (x :: l')) by now left.
    rewrite <- E in Hin. apply filter_In in Hin. eauto.
  - intros (x & Hin & Hp) E.
    assert (H : In x (filter P l)) by (apply filter_In; auto).
    rewrite E in H. destruct H.
Qed.

Lemma within_tolerance_evidence (m : ResultMatcher) (c : Claim) (T : float) :
  filter (within_tolerance (Parser.value c) T) (values m) <> [] <->
  evidence_within m c T.
Proof.
  rewrite filter_some_iff. unfold evidence_within.
  split; intros (o & Hin & H); exists o; (split; [assumption|]).
  - rewrite (within_tolerance_spec _ _ o c eq_refl) in H.
    apply andb_true_iff in H as [H0 H1]. apply negb_true_iff in H0. auto.
  - destruct H as [H0 H1].
    rewrite (within_tolerance_spec _ _ o c eq_refl), H0, H1. reflexivity.
Qed.

Lemma tier_status_cases {A : Type} (e c w : list A) :
  (tier_status e c w = EXACT_MATCH <-> e <> []) /\
  (tier_status e c w = CLOSE_MATCH <-> e = [] /\ c <> []) /\
  (tier_status e c w = MISMATCH <-> e = [] /\ c = [] /\ w <> []) /\
  (tier_status e c w = UNVERIFIED <-> e = [] /\ c = [] /\ w = []).
Proof.
  destruct e, c, w; simpl; repeat split; try intros (? & ? & ?);
    try intros (? & ?); try intros ?; try congruence; try discriminate.
Qed.

(** X20. On a matcher whose index was built, the status of a claim says
    what evidence the observations hold: EXACT_MATCH when one has the
    claim's value once both are rounded to 6 digits; else CLOSE_MATCH when
    one is within the configured tolerance; else MISMATCH when one is within
    10; else UNVERIFIED. *)
Theorem status_by_evidence (m b : ResultMatcher) (tol : float) (c : Claim)
  (r : VerificationResult) :
  _build_index m = Ok b ->
  verify_claim {| matcher := b; tolerance_pct := tol |} c = Ok r ->
  (status r = EXACT_MATCH <-> exact_evidence m c) /\
  (status r = CLOSE_MATCH <->
   ~ exact_evidence m c /\ evidence_within m c tol) /\
  (status r = MISMATCH <->
   ~ exact_evidence m c /\ ~ evidence_within m c tol /\
   evidence_within m c 10) /\
  (status r = UNVERIFIED <->
   ~ exact_evidence m c /\ ~ evidence_within m c tol /\
   ~ evidence_within m c 10).
Proof.
  intros Hb Hr.
  destruct (find_exact_built m b (Parser.value c) Hb) as [Hv He].
  destruct (verify_claim_cases {| matcher := b; tolerance_pct := tol |} c)
    as (x & Hx & _ & Hst & _).
  rewrite Hr in Hx. apply ExtractFacts.Ok_inj in Hx. subst x.
  simpl in Hst. rewrite He, Hv in Hst. rewrite Hst.
  assert (Hex : rounded_to (PyFloat.round6 (Parser.value c)) (values m) <> []
                <-> exact_evidence m c)
    by (unfold rounded_to; apply filter_some_iff).
  pose proof (within_tolerance_evidence m c tol) as Hct.
  pose proof (within_tolerance_evidence m c 10) as Hcw.
  destruct (tier_status_cases
              (rounded_to (PyFloat.round6 (Parser.value c)) (values m))
              (filter (within_tolerance (Parser.value c) tol) (values m))
              (filter (within_tolerance (Parser.value c) 10) (values m)))
    as (T1 & T2 & T3 & T4).
  rewrite T1, T2, T3, T4, <- Hex, <- Hct, <- Hcw.
  destruct (rounded_to (PyFloat.round6 (Parser.value c)) (values m)),
    (filter (within_tolerance (Parser.value c) tol) (values m)),
    (filter (within_tolerance (Parser.value c) 10) (values m));
    repeat split; try congruence; try tauto;
    try (intros H; decompose [and] H; congruence);
    try (intros H1 H2; congruence).
Qed.

(** An instance: the claim 2.10 and the observation 2.12 under the
    tolerance 1. *)
Lemma status_by_evidence_witness :
  (status RunSamples.close_2_10 = EXACT_MATCH <->
   exact_evidence {| values := [RunSamples.mae_2_12]; index := [] |}
     RunSamples.claim_2_10_plain) /\
  (status RunSamples.close_2_10 = CLOSE_MATCH <->
   ~ exact_evidence {| values := [RunSamples.mae_2_12]; index := [] |}
       RunSamples.claim_2_10_plain /\
   evidence_within {| values := [RunSamples.mae_2_12]; index := [] |}
     RunSamples.claim_2_10_plain 1) /\
  (status RunSamples.close_2_10 = MISMATCH <->
   ~ exact_evidence {| values := [RunSamples.mae_2_12]; index := [] |}
       RunSamples.claim_2_10_plain /\
   ~ evidence_within {| values := [RunSamples.mae_2_12]; index := [] |}
       RunSamples.claim_2_10_plain 1 /\
   evidence_within {| values := [RunSamples.mae_2_12]; index := [] |}
     RunSamples.claim_2_10_plain 10) /\
  (status RunSamples.close_2_10 = UNVERIFIED <->
   ~ exact_evidence {| values := [RunSamples.mae_2_12]; index := [] |}
       RunSamples.claim_2_10_plain /\
   ~ evidence_within {| values := [RunSamples.mae_2_12]; index := [] |}
       RunSamples.claim_2_10_plain 1 /\
   ~ evidence_within {| values := [RunSamples.mae_2_12]; index := [] |}
       RunSamples.claim_2_10_plain 10).
Proof.
  exact (status_by_evidence
           {| values := [RunSamples.mae_2_12]; index := [] |}
           (Samples.matcher_of [RunSamples.mae_2_12]) 1
           RunSamples.claim_2_10_plain RunSamples.close_2_10
           eq_refl eq_refl).
Defined.

End EvidenceFacts.
